(** * Replication strategies of the ring (package [ring])

    A shallow embedding of [internal/cortex/ring/replication_strategy.go]:
    the two implementations of [ReplicationStrategy.Filter], run over an
    explicit store that holds the backing arrays of Go slices and the
    wall clock, so that the in-place filtering of the [instances]
    argument and the single reading of [time.Now()] are both visible. *)

From stdpp Require Import gmap strings list pretty.

Open Scope Z_scope.

(** ** Machine integers

    Go's [int] is a 64-bit two's complement integer on the platforms the
    ring runs on.  Values are kept in [Z] and every arithmetic operation
    wraps around. *)

Definition int_min : Z := - 2 ^ 63.
Definition int_max : Z := 2 ^ 63 - 1.

Definition is_int (z : Z) : Prop := int_min <= z <= int_max.

Definition wrap (z : Z) : Z := (z + 2 ^ 63) mod 2 ^ 64 - 2 ^ 63.

Definition int_add (a b : Z) : Z := wrap (a + b).
Definition int_sub (a b : Z) : Z := wrap (a - b).

(** Go's [/] on integers truncates toward zero. *)
Definition int_quot (a b : Z) : Z := wrap (Z.quot a b).

(** ** Data *)

(** [time.Time] and [time.Duration], both counted in nanoseconds. *)
Definition Time : Type := Z.
Definition Duration : Type := Z.

(** Modelled from the spec: the lifecycle state of an instance; its
    declaration is in another file of the package. *)
Inductive InstanceState : Type :=
  | JOINING
  | ACTIVE
  | LEAVING
  | LEFT.

(** Modelled from the spec: the struct [InstanceDesc] is declared in
    another file of the package; the fields are those of the spec's
    Instance Record.  [Filter] reads [Addr] only. *)
Record InstanceDesc : Type := mkInstanceDesc {
  Addr : string;
  Zone : string;
  State : InstanceState;
  Timestamp : Time;
  Tokens : list Z
}.

(** A Go [error]: [nil], or a value whose only observation is the text
    of [Error()].  Both strategies build theirs with [fmt.Errorf]. *)
Definition error : Type := option string.

(** ** Slices and the store *)

Definition loc : Type := positive.

(** A slice header: backing array ([None] for the nil slice), offset of
    the first element in that array, length and capacity. *)
Record Slice : Type := mkSlice {
  base : option loc;
  off : nat;
  len : nat;
  cap : nat
}.

Definition nil_slice : Slice := mkSlice None 0 0 0.

(** The store: the backing arrays of [[]InstanceDesc] slices, the wall
    clock as the sequence of its successive readings, and the number of
    readings taken so far. *)
Record World : Type := mkWorld {
  heap : gmap loc (list InstanceDesc);
  wall : nat -> Time;
  reads : nat
}.

Definition set_heap (h : gmap loc (list InstanceDesc)) (w : World) : World :=
  mkWorld h (wall w) (reads w).

(** What a slice denotes in a store. *)
Definition elems (w : World) (s : Slice) : list InstanceDesc :=
  match base s with
  | None => []
  | Some l => take (len s) (drop (off s) (default [] (heap w !! l)))
  end.

(** The invariant the Go runtime keeps for every slice value. *)
Definition slice_wf (w : World) (s : Slice) : Prop :=
  (len s <= cap s)%nat /\ Z.of_nat (cap s) <= int_max /\
  match base s with
  | None => cap s = 0%nat
  | Some l => exists arr, heap w !! l = Some arr /\ (off s + cap s <= length arr)%nat
  end.

(** ** Computations *)

Inductive result (A : Type) : Type :=
  | Ok (a : A)
  | Panic
  | OutOfFuel.

Arguments Ok {A} a.
Arguments Panic {A}.
Arguments OutOfFuel {A}.

Definition M (A : Type) : Type := World -> result (A * World).

Global Instance M_ret : MRet M := fun A (a : A) w => Ok (a, w).

Global Instance M_bind : MBind M := fun A B (k : A -> M B) (m : M A) w =>
  match m w with
  | Ok (a, w') => k a w'
  | Panic => Panic
  | OutOfFuel => OutOfFuel
  end.

Definition panic {A : Type} : M A := fun _ => Panic.

(** [time.Now()]: the next reading of the wall clock. *)
Definition time_Now : M Time :=
  fun w => Ok (wall w (reads w), mkWorld (heap w) (wall w) (S (reads w))).

(** Overwrite [arr] from position [n] on with [vals]. *)
Definition write_at (n : nat) (vals arr : list InstanceDesc) : list InstanceDesc :=
  take n arr ++ vals ++ drop (n + length vals) arr.

(** [s[i]]: a run-time panic when [i] is out of range. *)
Definition index (s : Slice) (i : nat) : M InstanceDesc :=
  fun w =>
    if decide (i < len s)%nat then
      match base s with
      | Some l =>
          match default [] (heap w !! l) !! (off s + i)%nat with
          | Some x => Ok (x, w)
          | None => Panic
          end
      | None => Panic
      end
    else Panic.

(** [s[:j]]: the bound is the capacity. *)
Definition slice_to (s : Slice) (j : nat) : M Slice :=
  if decide (j <= cap s)%nat then mret (mkSlice (base s) (off s) j (cap s))
  else panic.

(** [s[i:]]: the bound is the length. *)
Definition slice_from (s : Slice) (i : nat) : M Slice :=
  if decide (i <= len s)%nat then
    mret (mkSlice (base s) (off s + i) (len s - i) (cap s - i))
  else panic.

(** [append(s, t...)].  The elements of [t] are read first (the copy
    behaves as a [memmove]).  With enough capacity they are written into
    the backing array of [s], right after its elements; otherwise a new
    array is allocated (Go leaves its capacity to the runtime, the exact
    fit is taken here). *)
Definition append (s t : Slice) : M Slice :=
  fun w =>
    let vals := elems w t in
    let n := (len s + length vals)%nat in
    match base s with
    | Some l =>
        if decide (n <= cap s)%nat then
          let arr := default [] (heap w !! l) in
          Ok (mkSlice (Some l) (off s) n (cap s),
              set_heap (<[l := write_at (off s + len s) vals arr]> (heap w)) w)
        else
          let l' := fresh (dom (heap w)) in
          Ok (mkSlice (Some l') 0 n n,
              set_heap (<[l' := elems w s ++ vals]> (heap w)) w)
    | None =>
        if decide (n = 0)%nat then Ok (nil_slice, w)
        else
          let l' := fresh (dom (heap w)) in
          Ok (mkSlice (Some l') 0 n n, set_heap (<[l' := vals]> (heap w)) w)
    end.

(** [strings.Join(elems, sep)]. *)
Definition strings_Join (l : list string) (sep : string) : string :=
  String.concat sep l.

(** The verb [%d] of [fmt] applied to an [int]. *)
Definition fmt_d (z : Z) : string := pretty z.


(** ** A health rule

    The strategies are verified for every health predicate.  The rule
    below is the one the examples run. *)

(** Modelled from the spec: the operation kinds the spec names (read,
    write, delete); the type [Operation] is declared in another file. *)
Inductive Op : Type :=
  | Read
  | Write
  | Delete.

(** Modelled from the spec: the method [InstanceDesc.IsHealthy] is in
    another file.  Section 4.1: an instance is unhealthy when its last
    heartbeat is older than the timeout, and when its lifecycle state
    does not admit the operation.  The state table is left open by the
    spec; here an active instance serves every operation, a leaving one
    serves reads, the others serve nothing. *)
Definition specIsHealthy (i : InstanceDesc) (op : Op) (heartbeatTimeout : Duration)
    (now : Time) : bool :=
  match State i, op with
  | ACTIVE, _ => true
  | LEAVING, Read => true
  | _, _ => false
  end && negb (now - Timestamp i >? heartbeatTimeout).

(** An active instance with the given address and last heartbeat. *)
Definition inst (a : string) (t : Time) : InstanceDesc :=
  mkInstanceDesc a "" ACTIVE t [].

(** A store with one array at location [1], read through the slice that
    covers it whole, and a clock that always shows [now]. *)
Definition world_of (arr : list InstanceDesc) (now : Time) : World :=
  mkWorld {[ 1%positive := arr ]} (fun _ => now) 0.

Definition whole (arr : list InstanceDesc) : Slice :=
  mkSlice (Some 1%positive) 0 (length arr) (length arr).


(** The inputs of the examples.  The clock shows [100] and the heartbeat
    timeout is [10] wherever they are run, so an instance is stale when
    its last heartbeat is before [90]. *)
Definition five_healthy : list InstanceDesc :=
  [inst "a" 95; inst "b" 96; inst "c" 97; inst "d" 98; inst "e" 99].

Definition two_stale : list InstanceDesc :=
  [inst "a" 95; inst "b" 5; inst "c" 9].

Definition first_stale : list InstanceDesc :=
  [inst "a" 5; inst "b" 95].

Definition one_fresh : list InstanceDesc := [inst "a" 95].

Definition one_stale : list InstanceDesc :=
  [inst "a" 95; inst "b" 5; inst "c" 99].

Definition comma_addr : list InstanceDesc := [inst "a,b" 0].

Definition two_addrs : list InstanceDesc := [inst "a" 0; inst "b" 0].

(** The same instances elsewhere: in the array at location [2], after
    one other element, in a store whose clock has been read three times
    and shows [now] at the next reading. *)
Definition world_shifted (arr : list InstanceDesc) (now : Time) : World :=
  mkWorld {[ 2%positive := inst "z" 0 :: arr ]} (fun n => now + Z.of_nat n - 3) 3.

Definition shifted (arr : list InstanceDesc) : Slice :=
  mkSlice (Some 2%positive) 1 (length arr) (length arr).

Section Strategies.

(** The operation classifier, and the method [InstanceDesc.IsHealthy],
    both declared in other files of the package.  The method is a pure
    function of the instance, the operation, the heartbeat timeout and
    the time it is given. *)
Variable Operation : Type.
Variable IsHealthy : InstanceDesc -> Operation -> Duration -> Time -> bool.

(** The filtering loop, the same text in both strategies:
<<
    for i := 0; i < len(instances); {
        if instances[i].IsHealthy(op, heartbeatTimeout, now) {
            i++
        } else {
            unhealthy = append(unhealthy, instances[i].Addr)
            instances = append(instances[:i], instances[i+1:]...)
        }
    }
>>
    [unhealthy] is a local [[]string] that starts nil and is only
    appended to, so a list stands for it.  The loop has no structural
    argument: it runs on [fuel], one unit for each iteration. *)
Fixpoint filter_loop (fuel : nat) (op : Operation) (heartbeatTimeout : Duration)
    (now : Time) (instances : Slice) (i : nat) (unhealthy : list string)
    : M (Slice * list string) :=
  if decide (i < len instances)%nat then
    match fuel with
    | O => fun _ => OutOfFuel
    | S fuel' =>
        x ← index instances i;
        if IsHealthy x op heartbeatTimeout now then
          filter_loop fuel' op heartbeatTimeout now instances (S i) unhealthy
        else
          y ← index instances i;
          let unhealthy := unhealthy ++ [Addr y] in
          s1 ← slice_to instances i;
          s2 ← slice_from instances (i + 1);
          instances ← append s1 s2;
          filter_loop fuel' op heartbeatTimeout now instances i unhealthy
    end
  else mret (instances, unhealthy).

(** The text both strategies put after the counts. *)
Definition unhealthyStr (unhealthy : list string) : string :=
  if decide (0 < length unhealthy)%nat then
    " - unhealthy instances: " +:+ strings_Join unhealthy ","
  else "".

(** [defaultReplicationStrategy.Filter].  Every iteration of the loop
    either advances [i] or shortens [instances], so [len(instances)]
    units of fuel are all it can use. *)
Definition defaultReplicationStrategy_Filter (instances : Slice) (op : Operation)
    (replicationFactor : Z) (heartbeatTimeout : Duration)
    (zoneAwarenessEnabled : bool) : M (Slice * Z * error) :=
  now ← time_Now;
  '(instances, unhealthy) ←
    filter_loop (len instances) op heartbeatTimeout now instances 0 [];
  let replicationFactor :=
    if Z.of_nat (len instances) >? replicationFactor
    then Z.of_nat (len instances) else replicationFactor in
  let minSuccess := int_add (int_quot replicationFactor 2) 1 in
  if Z.of_nat (len instances) <? minSuccess then
    let err :=
      if zoneAwarenessEnabled then
        "at least " +:+ fmt_d minSuccess +:+
        " live replicas required across different availability zones, could only find "
        +:+ fmt_d (Z.of_nat (len instances)) +:+ unhealthyStr unhealthy
      else
        "at least " +:+ fmt_d minSuccess +:+
        " live replicas required, could only find "
        +:+ fmt_d (Z.of_nat (len instances)) +:+ unhealthyStr unhealthy in
    mret (nil_slice, 0, Some err)
  else
    mret (instances, int_sub (Z.of_nat (len instances)) minSuccess, None).

(** [ignoreUnhealthyInstancesReplicationStrategy.Filter]; the
    replication factor and the zone-awareness flag are ignored. *)
Definition ignoreUnhealthyInstancesReplicationStrategy_Filter (instances : Slice)
    (op : Operation) (_ : Z) (heartbeatTimeout : Duration) (_ : bool)
    : M (Slice * Z * error) :=
  now ← time_Now;
  '(instances, unhealthy) ←
    filter_loop (len instances) op heartbeatTimeout now instances 0 [];
  if decide (len instances = 0)%nat then
    mret (nil_slice, 0,
         Some ("at least 1 healthy replica required, could only find 0"
               +:+ unhealthyStr unhealthy))
  else
    mret (instances, int_sub (Z.of_nat (len instances)) 1, None).


(** The interface [ReplicationStrategy]: its two implementations, as
    [NewDefaultReplicationStrategy] and
    [NewIgnoreUnhealthyInstancesReplicationStrategy] return them. *)
Inductive ReplicationStrategy : Type :=
  | defaultReplicationStrategy
  | ignoreUnhealthyInstancesReplicationStrategy.

Definition Filter (r : ReplicationStrategy) (instances : Slice) (op : Operation)
    (replicationFactor : Z) (heartbeatTimeout : Duration)
    (zoneAwarenessEnabled : bool) : M (Slice * Z * error) :=
  match r with
  | defaultReplicationStrategy =>
      defaultReplicationStrategy_Filter instances op replicationFactor
        heartbeatTimeout zoneAwarenessEnabled
  | ignoreUnhealthyInstancesReplicationStrategy =>
      ignoreUnhealthyInstancesReplicationStrategy_Filter instances op
        replicationFactor heartbeatTimeout zoneAwarenessEnabled
  end.

(** ** Vocabulary of the statements *)

(** The healthy instances of a list at one point in time, in the order
    of the list, and the addresses of the others. *)
Definition healthy_of (op : Operation) (timeout : Duration) (now : Time)
    (xs : list InstanceDesc) : list InstanceDesc :=
  List.filter (fun x => IsHealthy x op timeout now) xs.

Definition unhealthy_addrs (op : Operation) (timeout : Duration) (now : Time)
    (xs : list InstanceDesc) : list string :=
  map Addr (List.filter (fun x => negb (IsHealthy x op timeout now)) xs).

(** What the slots freed by the removals hold: copies of the last
    element of the list. *)
Definition fill (xs : list InstanceDesc) (k : nat) : list InstanceDesc :=
  match last xs with
  | Some z => replicate k z
  | None => []
  end.

(** The backing array of [s] once the loop has run over it. *)
Definition filtered_array (op : Operation) (timeout : Duration) (now : Time)
    (w : World) (s : Slice) (arr : list InstanceDesc) : list InstanceDesc :=
  let xs := elems w s in
  let hs := healthy_of op timeout now xs in
  take (off s) arr ++ hs ++ fill xs (length xs - length hs)
    ++ drop (off s + len s) arr.

Definition filtered_heap (op : Operation) (timeout : Duration) (now : Time)
    (w : World) (s : Slice) : gmap loc (list InstanceDesc) :=
  match base s with
  | None => heap w
  | Some l =>
      <[l := filtered_array op timeout now w s (default [] (heap w !! l))]> (heap w)
  end.

(** The store after a call differs from the caller's in the heap and in
    the number of clock readings only. *)
Definition after_filter (op : Operation) (timeout : Duration) (w : World)
    (s : Slice) : World :=
  mkWorld (filtered_heap op timeout (wall w (reads w)) w s) (wall w) (S (reads w)).

(** The slice a successful call returns. *)
Definition kept_slice (op : Operation) (timeout : Duration) (w : World)
    (s : Slice) : Slice :=
  mkSlice (base s) (off s)
    (length (healthy_of op timeout (wall w (reads w)) (elems w s))) (cap s).


(** The error of the quorum strategy, as the code builds it. *)
Definition quorum_error (zoneAwarenessEnabled : bool) (minSuccess found : Z)
    (unhealthy : list string) : string :=
  if zoneAwarenessEnabled then
    "at least " +:+ fmt_d minSuccess +:+
    " live replicas required across different availability zones, could only find "
    +:+ fmt_d found +:+ unhealthyStr unhealthy
  else
    "at least " +:+ fmt_d minSuccess +:+
    " live replicas required, could only find "
    +:+ fmt_d found +:+ unhealthyStr unhealthy.

(** What the caller holds after a call: the instances the returned slice
    denotes, the failure budget and the error; [None] if the call did
    not return. *)
Definition returned (r : result (Slice * Z * error * World))
    : option (list InstanceDesc * Z * error) :=
  match r with
  | Ok ((s, maxFailures, err), w) => Some (elems w s, maxFailures, err)
  | _ => None
  end.

(** The store after one reading of the clock and nothing else. *)
Definition tick (w : World) : World :=
  mkWorld (heap w) (wall w) (S (reads w)).

(** ** The ring *)

(** The state of a [sync.RWMutex]: the number of read locks held and
    whether the write lock is held.  The ring carries one; none of the
    functions modelled here locks it. *)
Record RWMutex : Type := mkRWMutex {
  readers : nat;
  writer : bool
}.

(** Modelled from the spec: the configuration of the ring, declared in
    another file; the two fields this file reads. *)
Record Config : Type := mkConfig {
  HeartbeatTimeout : Duration;
  ReplicationFactor : Z
}.

(** Modelled from the spec: the membership snapshot, declared in another
    file; a Go map from instance id to instance. *)
Record Desc : Type := mkDesc {
  Ingesters : gmap string InstanceDesc
}.

(** Modelled from the spec: the struct [Ring], declared in another file;
    the fields this file reads. *)
Record Ring : Type := mkRing {
  cfg : Config;
  mtx : RWMutex;
  ringDesc : Desc
}.

(** [Ring.IsHealthy]. *)
Definition Ring_IsHealthy (r : Ring) (instance : InstanceDesc) (op : Operation)
    (now : Time) : bool :=
  IsHealthy instance op (HeartbeatTimeout (cfg r)) now.

(** [Ring.ReplicationFactor]. *)
Definition Ring_ReplicationFactor (r : Ring) : Z :=
  ReplicationFactor (cfg r).

(** ** The filtering loop *)

Lemma healthy_of_length op timeout now xs :
  (length (healthy_of op timeout now xs) <= length xs)%nat.
Proof.
  induction xs as [|x xs IH]; simpl; [lia|].
  destruct (IsHealthy x op timeout now); simpl; lia.
Qed.

Lemma healthy_of_sublist op timeout now xs :
  healthy_of op timeout now xs `sublist_of` xs.
Proof.
  induction xs as [|x xs IH]; simpl; [constructor|].
  destruct (IsHealthy x op timeout now); by constructor.
Qed.

Lemma elem_of_healthy_of op timeout now xs x :
  x ∈ healthy_of op timeout now xs <-> x ∈ xs /\ IsHealthy x op timeout now = true.
Proof.
  unfold healthy_of. rewrite !list_elem_of_In. apply filter_In.
Qed.

Lemma drop_length_last (x z : InstanceDesc) r t :
  last (x :: r) = Some z -> drop (length r) (x :: r ++ t) = z :: t.
Proof.
  revert x. induction r as [|y r IH]; intros x Hl.
  - simpl in *. by simplify_eq.
  - rewrite last_cons_cons in Hl. simpl. by apply IH.
Qed.

Lemma fill_cons x r k : (k <= length r)%nat -> fill (x :: r) k = fill r k.
Proof.
  unfold fill. destruct r as [|y r]; simpl; intros Hk.
  - by replace k with 0%nat by lia.
  - done.
Qed.

Lemma fill_replicate x z r k :
  (k <= length r)%nat -> last (x :: r) = Some z -> fill r k = replicate k z.
Proof.
  unfold fill. destruct r as [|y r]; simpl; intros Hk Hl.
  - by replace k with 0%nat by lia.
  - by rewrite Hl.
Qed.

Lemma set_heap_id w : set_heap (heap w) w = w.
Proof. by destruct w. Qed.

Lemma bind_Ok {A B : Type} (m : M A) (k : A -> M B) w a w' :
  m w = Ok (a, w') -> (m ≫= k) w = k a w'.
Proof. intros Hm. unfold mbind, M_bind. by rewrite Hm. Qed.

Lemma index_Ok w l o n c i arr x :
  heap w !! l = Some arr -> (i < n)%nat -> arr !! (o + i)%nat = Some x ->
  index (mkSlice (Some l) o n c) i w = Ok (x, w).
Proof.
  intros Hh Hi Hx. unfold index. cbn [len base off].
  case_decide; [|lia]. rewrite Hh. simpl. by rewrite Hx.
Qed.

Lemma slice_to_Ok s j w :
  (j <= cap s)%nat -> slice_to s j w = Ok (mkSlice (base s) (off s) j (cap s), w).
Proof. intros Hj. unfold slice_to. by case_decide; [|lia]. Qed.

Lemma slice_from_Ok s i w :
  (i <= len s)%nat ->
  slice_from s i w
  = Ok (mkSlice (base s) (off s + i) (len s - i) (cap s - i), w).
Proof. intros Hi. unfold slice_from. by case_decide; [|lia]. Qed.

(** With room in the backing array, [append] writes in place: the result
    has the array and the offset of its first argument. *)
Lemma append_in_place s t w l arr vals :
  base s = Some l -> heap w !! l = Some arr -> elems w t = vals ->
  (len s + length vals <= cap s)%nat ->
  append s t w
  = Ok (mkSlice (Some l) (off s) (len s + length vals) (cap s),
        set_heap (<[l := write_at (off s + len s) vals arr]> (heap w)) w).
Proof.
  intros Hb Hh Hv Hn. unfold append. rewrite Hb, Hv, Hh.
  by case_decide; [|lia].
Qed.

Lemma elems_Some w l o n c arr :
  heap w !! l = Some arr ->
  elems w (mkSlice (Some l) o n c) = take n (drop o arr).
Proof. intros Hh. unfold elems. cbn [base len off]. by rewrite Hh. Qed.

(** The invariant of the loop: the array is [pre ++ kept ++ rest ++ tl],
    the slice covers [kept ++ rest], and [i] stands at the head of
    [rest].  [length rest] units of fuel are enough. *)
Lemma filter_loop_inv op timeout now rest :
  forall fuel l c pre kept tl w unh,
    heap w !! l = Some (pre ++ kept ++ rest ++ tl) ->
    (length kept + length rest <= c)%nat ->
    (length rest <= fuel)%nat ->
    filter_loop fuel op timeout now
      (mkSlice (Some l) (length pre) (length kept + length rest) c)
      (length kept) unh w
    = Ok ((mkSlice (Some l) (length pre)
             (length kept + length (healthy_of op timeout now rest)) c,
           unh ++ unhealthy_addrs op timeout now rest),
          set_heap
            (<[l := pre ++ kept ++ healthy_of op timeout now rest
                    ++ fill rest (length rest - length (healthy_of op timeout now rest))
                    ++ tl]> (heap w)) w).
Proof.
  induction rest as [|x rest IH]; intros fuel l c pre kept tl w unh Hh Hc Hf.
  - destruct fuel; simpl; (case_decide; [lia|]);
      rewrite app_nil_r, insert_id, set_heap_id by done; done.
  - destruct fuel as [|fuel]; [simpl in Hf; lia|].
    cbn [length] in Hc, Hf.
    assert (Hx : (pre ++ kept ++ (x :: rest) ++ tl) !! (length pre + length kept)%nat
                 = Some x).
    { rewrite lookup_app_r by lia. rewrite lookup_app_r by lia.
      by replace (length pre + length kept - length pre - length kept)%nat
        with 0%nat by lia. }
    pose proof (healthy_of_length op timeout now rest) as Hle.
    cbn [filter_loop len length]. case_decide; [|lia].
    rewrite (bind_Ok _ _ w x w) by (eapply index_Ok; [done|lia|done]).
    unfold healthy_of, unhealthy_addrs. cbn [List.filter].
    fold (healthy_of op timeout now rest).
    destruct (IsHealthy x op timeout now) eqn:Hhx; cbn [negb map length].
    + replace (length kept + S (length rest))%nat
        with (length (kept ++ [x]) + length rest)%nat
        by (rewrite length_app; simpl; lia).
      replace (S (length kept)) with (length (kept ++ [x]))
        by (rewrite length_app; simpl; lia).
      rewrite (IH fuel l c pre (kept ++ [x]) tl w unh).
      * fold (unhealthy_addrs op timeout now rest).
        rewrite length_app. cbn [length].
        replace (length kept + 1 + length (healthy_of op timeout now rest))%nat
          with (length kept + S (length (healthy_of op timeout now rest)))%nat by lia.
        replace (S (length rest) - S (length (healthy_of op timeout now rest)))%nat
          with (length rest - length (healthy_of op timeout now rest))%nat by lia.
        rewrite fill_cons by lia.
        by rewrite <- !app_assoc.
      * by rewrite <- !app_assoc.
      * rewrite length_app. simpl. lia.
      * lia.
    + rewrite (bind_Ok _ _ w x w) by (eapply index_Ok; [done|lia|done]).
      rewrite (bind_Ok _ _ w _ w) by (apply slice_to_Ok; simpl; lia).
      rewrite (bind_Ok _ _ w _ w) by (apply slice_from_Ok; simpl; lia).
      cbn [base off len cap].
      destruct (last_is_Some (x :: rest)) as [_ [z Hz]]; [done|].
      assert (Hvals : elems w (mkSlice (Some l) (length pre + (length kept + 1))
                (length kept + S (length rest) - (length kept + 1))
                (c - (length kept + 1))) = rest).
      { rewrite (elems_Some _ _ _ _ _ _ Hh).
        replace (length kept + S (length rest) - (length kept + 1))%nat
          with (length rest) by lia.
        rewrite drop_app_ge by lia. rewrite drop_app_ge by lia.
        replace (length pre + (length kept + 1) - length pre - length kept)%nat
          with 1%nat by lia.
        cbn [app drop]. by rewrite drop_0, take_app_length. }
      assert (Hw : write_at (length pre + length kept) rest
                (pre ++ kept ++ (x :: rest) ++ tl)
              = pre ++ kept ++ rest ++ z :: tl).
      { unfold write_at.
        replace (pre ++ kept ++ (x :: rest) ++ tl)
          with ((pre ++ kept) ++ (x :: rest) ++ tl) by by rewrite <- app_assoc.
        rewrite take_app_length' by (rewrite length_app; lia).
        rewrite drop_app_ge by (rewrite length_app; lia).
        replace (length pre + length kept + length rest - length (pre ++ kept))%nat
          with (length rest) by (rewrite length_app; lia).
        simpl. rewrite (drop_length_last x z rest tl Hz).
        by rewrite <- app_assoc. }
      erewrite bind_Ok; last first.
      { eapply append_in_place; [done|exact Hh|exact Hvals|]. simpl. lia. }
      cbn [base off len cap]. rewrite Hw.
      rewrite (IH fuel l c pre kept (z :: tl) _ (unh ++ [Addr x])).
      * fold (unhealthy_addrs op timeout now rest).
        cbn [heap set_heap]. rewrite insert_insert_eq.
        rewrite <- app_assoc. cbn [app].
        replace (S (length rest) - length (healthy_of op timeout now rest))%nat
          with (S (length rest - length (healthy_of op timeout now rest)))%nat by lia.
        rewrite (fill_replicate x z rest) by (done || lia).
        unfold fill. rewrite Hz. rewrite replicate_S_end, <- app_assoc. done.
      * cbn [heap set_heap]. by rewrite lookup_insert_eq.
      * lia.
      * lia.
Qed.

Lemma slice_wf_array w s l :
  slice_wf w s -> base s = Some l ->
  exists arr, heap w !! l = Some arr /\
    arr = take (off s) arr ++ elems w s ++ drop (off s + len s) arr /\
    length (take (off s) arr) = off s /\ length (elems w s) = len s.
Proof.
  intros (Hlen & _ & Hb) Hl. rewrite Hl in Hb. destruct Hb as (arr & Harr & Hcap).
  exists arr. unfold elems. rewrite Hl, Harr. cbn [default from_option id].
  split_and!.
  - done.
  - by rewrite <- drop_drop, !take_drop.
  - rewrite length_take. lia.
  - rewrite length_take, length_drop. lia.
Qed.

Lemma slice_wf_nil w s : slice_wf w s -> base s = None -> len s = 0%nat.
Proof. intros (Hlen & _ & Hb) Hn. rewrite Hn in Hb. lia. Qed.

(** The loop, run from [i = 0] on a well-formed slice with
    [len(instances)] units of fuel, always returns. *)
Lemma filter_loop_total op timeout now w s :
  slice_wf w s ->
  filter_loop (len s) op timeout now s 0 [] w
  = Ok ((mkSlice (base s) (off s)
           (length (healthy_of op timeout now (elems w s))) (cap s),
         unhealthy_addrs op timeout now (elems w s)),
        set_heap (filtered_heap op timeout now w s) w).
Proof.
  intros Hwf. destruct (base s) as [l|] eqn:Hl.
  - destruct (slice_wf_array w s l Hwf Hl) as (arr & Harr & Hsplit & Hpre & Hxs).
    pose proof Hwf as (Hlen & _ & _).
    pose proof (filter_loop_inv op timeout now (elems w s) (len s) l (cap s)
                  (take (off s) arr) [] (drop (off s + len s) arr) w []) as Hinv.
    cbn [app length] in Hinv. rewrite <- Hsplit, Hpre, Hxs in Hinv.
    rewrite !Nat.add_0_l in Hinv.
    specialize (Hinv Harr ltac:(lia) ltac:(lia)).
    unfold filtered_heap, filtered_array. rewrite Hl, Harr, Hxs.
    cbn [default from_option id]. rewrite <- Hinv.
    f_equal. destruct s; simpl in *; by subst.
  - pose proof (slice_wf_nil w s Hwf Hl) as Hn.
    unfold filtered_heap, elems. rewrite Hl, Hn, set_heap_id.
    destruct s as [b o n c]; simpl in *; subst. done.
Qed.

Lemma length_fill_healthy op timeout now xs :
  length (fill xs (length xs - length (healthy_of op timeout now xs)))
  = (length xs - length (healthy_of op timeout now xs))%nat.
Proof.
  unfold fill. destruct (last xs) as [z|] eqn:Hz.
  - apply length_replicate.
  - apply last_None in Hz. by subst.
Qed.

(** The returned slice denotes the healthy instances. *)
Lemma elems_kept_slice op timeout w s :
  slice_wf w s ->
  elems (after_filter op timeout w s) (kept_slice op timeout w s)
  = healthy_of op timeout (wall w (reads w)) (elems w s).
Proof.
  intros Hwf. unfold elems at 1, after_filter, kept_slice, filtered_heap.
  cbn [base off len heap]. destruct (base s) as [l|] eqn:Hl.
  - destruct (slice_wf_array w s l Hwf Hl) as (arr & Harr & Hsplit & Hpre & Hxs).
    rewrite lookup_insert_eq, Harr. cbn [default from_option id].
    unfold filtered_array.
    rewrite drop_app_length' by done. by rewrite take_app_length.
  - unfold elems. by rewrite Hl.
Qed.

(** The caller's slice, read after the call. *)
Lemma elems_after_filter op timeout w s :
  slice_wf w s ->
  elems (after_filter op timeout w s) s
  = healthy_of op timeout (wall w (reads w)) (elems w s)
    ++ fill (elems w s)
         (length (elems w s)
          - length (healthy_of op timeout (wall w (reads w)) (elems w s))).
Proof.
  intros Hwf. unfold elems at 1, after_filter, filtered_heap.
  cbn [heap]. destruct (base s) as [l|] eqn:Hl.
  - destruct (slice_wf_array w s l Hwf Hl) as (arr & Harr & Hsplit & Hpre & Hxs).
    rewrite lookup_insert_eq, Harr. cbn [default from_option id].
    unfold filtered_array.
    rewrite drop_app_length' by done.
    rewrite app_assoc. apply take_app_length'.
    rewrite length_app, length_fill_healthy, Hxs.
    pose proof (healthy_of_length op timeout (wall w (reads w)) (elems w s)). lia.
  - unfold elems. by rewrite Hl.
Qed.

(** The quorum arithmetic on machine integers is the arithmetic of the
    integers: nothing wraps. *)
Lemma minSuccess_exact rf n :
  is_int rf -> 0 <= n <= int_max ->
  int_add (int_quot (if n >? rf then n else rf) 2) 1 = Z.max rf n / 2 + 1.
Proof.
  unfold is_int, int_add, int_quot, wrap, int_min, int_max. intros Hrf Hn.
  assert (Hmax : (if n >? rf then n else rf) = Z.max rf n).
  { destruct (Z.gtb_spec n rf); lia. }
  rewrite Hmax. rewrite Z.quot_div_nonneg by lia.
  assert (0 <= Z.max rf n / 2 <= 2 ^ 62) by (split; [apply Z.div_pos; lia|];
    apply Z.div_le_upper_bound; lia).
  rewrite (Z.mod_small (Z.max rf n / 2 + 2 ^ 63)) by lia.
  replace (Z.max rf n / 2 + 2 ^ 63 - 2 ^ 63 + 1 + 2 ^ 63)
    with (Z.max rf n / 2 + 1 + 2 ^ 63) by lia.
  rewrite Z.mod_small by lia. lia.
Qed.

Lemma int_sub_exact a b :
  0 <= b <= a -> a <= int_max -> int_sub a b = a - b.
Proof.
  unfold int_sub, wrap, int_max. intros Hb Ha. rewrite Z.mod_small by lia. lia.
Qed.

(** What [defaultReplicationStrategy.Filter] returns, in full. *)
Lemma default_Filter_run s op rf timeout zone w :
  slice_wf w s -> is_int rf ->
  let now := wall w (reads w) in
  let hs := healthy_of op timeout now (elems w s) in
  let m := Z.max rf (Z.of_nat (length hs)) / 2 + 1 in
  defaultReplicationStrategy_Filter s op rf timeout zone w
  = if Z.of_nat (length hs) <? m then
      Ok ((nil_slice, 0,
           Some (quorum_error zone m (Z.of_nat (length hs))
                   (unhealthy_addrs op timeout now (elems w s)))),
          after_filter op timeout w s)
    else
      Ok ((kept_slice op timeout w s, Z.of_nat (length hs) - m, None),
          after_filter op timeout w s).
Proof.
  intros Hwf Hrf now hs m. unfold defaultReplicationStrategy_Filter.
  rewrite (bind_Ok _ _ w now (mkWorld (heap w) (wall w) (S (reads w)))) by done.
  erewrite bind_Ok; last by (apply filter_loop_total).
  cbn [len]. change (elems (mkWorld (heap w) (wall w) (S (reads w))) s) with (elems w s).
  fold hs.
  assert (Hn : 0 <= Z.of_nat (length hs) <= int_max).
  { pose proof (healthy_of_length op timeout now (elems w s)).
    destruct Hwf as (? & ? & _). fold hs in H.
    assert (length (elems w s) <= len s)%nat.
    { unfold elems. destruct (base s); simpl; [|lia]. rewrite length_take. lia. }
    lia. }
  rewrite minSuccess_exact by done. fold m.
  destruct (Z.ltb_spec (Z.of_nat (length hs)) m) as [Hlt|Hge].
  - done.
  - rewrite int_sub_exact; [done| |lia].
    split; [|done]. unfold m.
    assert (0 <= Z.max rf (Z.of_nat (length hs)) / 2) by (apply Z.div_pos; lia). lia.
Qed.

(** What [ignoreUnhealthyInstancesReplicationStrategy.Filter] returns. *)
Lemma ignoreUnhealthy_Filter_run s op rf timeout zone w :
  slice_wf w s ->
  let now := wall w (reads w) in
  let hs := healthy_of op timeout now (elems w s) in
  ignoreUnhealthyInstancesReplicationStrategy_Filter s op rf timeout zone w
  = if decide (length hs = 0)%nat then
      Ok ((nil_slice, 0,
           Some ("at least 1 healthy replica required, could only find 0"
                 +:+ unhealthyStr (unhealthy_addrs op timeout now (elems w s)))),
          after_filter op timeout w s)
    else
      Ok ((kept_slice op timeout w s, Z.of_nat (length hs) - 1, None),
          after_filter op timeout w s).
Proof.
  intros Hwf now hs. unfold ignoreUnhealthyInstancesReplicationStrategy_Filter.
  rewrite (bind_Ok _ _ w now (mkWorld (heap w) (wall w) (S (reads w)))) by done.
  erewrite bind_Ok; last by (apply filter_loop_total).
  cbn [len]. change (elems (mkWorld (heap w) (wall w) (S (reads w))) s) with (elems w s).
  fold hs. case_decide; [done|].
  rewrite int_sub_exact; [done|lia|].
  pose proof (healthy_of_length op timeout now (elems w s)) as Hle. fold hs in Hle.
  destruct Hwf as (? & ? & _).
  assert (length (elems w s) <= len s)%nat.
  { unfold elems. destruct (base s); simpl; [|lia]. rewrite length_take. lia. }
  lia.
Qed.



Lemma unhealthy_addrs_all op timeout now xs :
  healthy_of op timeout now xs = [] -> unhealthy_addrs op timeout now xs = map Addr xs.
Proof.
  unfold healthy_of, unhealthy_addrs. induction xs as [|x xs IH]; simpl; [done|].
  destruct (IsHealthy x op timeout now); simpl; [done|]. intros Hxs. by rewrite IH.
Qed.

Lemma unhealthyStr_cases unhealthy :
  unhealthyStr unhealthy
  = match unhealthy with
    | [] => ""
    | _ :: _ => " - unhealthy instances: " +:+ String.concat "," unhealthy
    end.
Proof.
  unfold unhealthyStr, strings_Join.
  destruct unhealthy; case_decide; cbn [length] in *; done || lia.
Qed.

(** Either strategy returns: an error with no instances, or the healthy
    instances with a failure budget below their number. *)
Lemma Filter_cases r s op rf timeout zone w :
  slice_wf w s -> is_int rf ->
  let hs := healthy_of op timeout (wall w (reads w)) (elems w s) in
  (exists msg,
     Filter r s op rf timeout zone w
     = Ok ((nil_slice, 0, Some msg), after_filter op timeout w s))
  \/
  (exists maxFailures,
     Filter r s op rf timeout zone w
     = Ok ((kept_slice op timeout w s, maxFailures, None), after_filter op timeout w s)
     /\ 0 <= maxFailures < Z.of_nat (length hs)).
Proof.
  intros Hwf Hrf hs. destruct r; cbn [Filter].
  - rewrite default_Filter_run by done. cbv zeta. fold hs.
    assert (0 <= Z.max rf (Z.of_nat (length hs)) / 2) by (apply Z.div_pos; lia).
    destruct (Z.ltb_spec (Z.of_nat (length hs))
                (Z.max rf (Z.of_nat (length hs)) / 2 + 1)).
    + left. by eexists.
    + right. eexists. split; [done|lia].
  - rewrite ignoreUnhealthy_Filter_run by done. cbv zeta. fold hs.
    case_decide.
    + left. by eexists.
    + right. eexists. split; [done|lia].
Qed.

(** What the caller of the quorum strategy observes. *)
Lemma returned_default_Filter s op rf timeout zone w :
  slice_wf w s -> is_int rf ->
  let now := wall w (reads w) in
  let hs := healthy_of op timeout now (elems w s) in
  let m := Z.max rf (Z.of_nat (length hs)) / 2 + 1 in
  returned (defaultReplicationStrategy_Filter s op rf timeout zone w)
  = Some (if Z.of_nat (length hs) <? m then
            ([], 0, Some (quorum_error zone m (Z.of_nat (length hs))
                            (unhealthy_addrs op timeout now (elems w s))))
          else (hs, Z.of_nat (length hs) - m, None)).
Proof.
  intros Hwf Hrf now hs m. rewrite default_Filter_run by done. cbv zeta.
  fold now hs m. destruct (Z.of_nat (length hs) <? m); cbn [returned]; [done|].
  by rewrite elems_kept_slice.
Qed.

(** What the caller of the best-effort strategy observes. *)
Lemma returned_ignoreUnhealthy_Filter s op rf timeout zone w :
  slice_wf w s ->
  let now := wall w (reads w) in
  let hs := healthy_of op timeout now (elems w s) in
  returned (ignoreUnhealthyInstancesReplicationStrategy_Filter s op rf timeout zone w)
  = Some (if decide (length hs = 0)%nat then
            ([], 0, Some ("at least 1 healthy replica required, could only find 0"
                          +:+ unhealthyStr (unhealthy_addrs op timeout now (elems w s))))
          else (hs, Z.of_nat (length hs) - 1, None)).
Proof.
  intros Hwf now hs. rewrite ignoreUnhealthy_Filter_run by done. cbv zeta.
  fold now hs. case_decide; cbn [returned]; [done|].
  by rewrite elems_kept_slice.
Qed.

(** ** The quorum strategy *)

(** C1: the quorum strategy takes the larger of the configured
    replication factor and the number of healthy instances as the
    effective factor, and half of it (rounded down) plus one as
    [minSuccess]; when the healthy instances are at least that many it
    returns all of them, [len(healthy) - minSuccess] as the failure
    budget, and no error. *)
Theorem quorum_Filter_success s op rf timeout zone w :
  slice_wf w s -> is_int rf ->
  let hs := healthy_of op timeout (wall w (reads w)) (elems w s) in
  let effectiveFactor := Z.max rf (Z.of_nat (length hs)) in
  let minSuccess := effectiveFactor / 2 + 1 in
  minSuccess <= Z.of_nat (length hs) ->
  exists s' w',
    defaultReplicationStrategy_Filter s op rf timeout zone w
    = Ok ((s', Z.of_nat (length hs) - minSuccess, None), w')
    /\ elems w' s' = hs.
Proof.
  intros Hwf Hrf hs eff m Hge.
  exists (kept_slice op timeout w s), (after_filter op timeout w s).
  split; [|by apply elems_kept_slice].
  rewrite default_Filter_run by done. cbv zeta. fold hs eff m.
  by destruct (Z.ltb_spec (Z.of_nat (length hs)) m); [lia|].
Qed.

(** C2: with fewer healthy instances than [minSuccess], the quorum
    strategy returns an error, the nil slice and a failure budget of
    zero. *)
Theorem quorum_Filter_failure s op rf timeout zone w :
  slice_wf w s -> is_int rf ->
  let hs := healthy_of op timeout (wall w (reads w)) (elems w s) in
  let minSuccess := Z.max rf (Z.of_nat (length hs)) / 2 + 1 in
  Z.of_nat (length hs) < minSuccess ->
  exists msg w',
    defaultReplicationStrategy_Filter s op rf timeout zone w
    = Ok ((nil_slice, 0, Some msg), w')
    /\ elems w' nil_slice = [].
Proof.
  intros Hwf Hrf hs m Hlt. eexists _, (after_filter op timeout w s).
  split; [|done].
  rewrite default_Filter_run by done. cbv zeta. fold hs m.
  by destruct (Z.ltb_spec (Z.of_nat (length hs)) m); [|lia].
Qed.

(** ** The best-effort strategy *)

(** C3: the best-effort strategy fails exactly when no instance is
    healthy, with an error that lists the addresses of the instances
    (all of them unhealthy); with a healthy instance it returns all the
    healthy ones and their number minus one as the failure budget. *)
Theorem ignoreUnhealthy_Filter_spec s op rf timeout zone w :
  slice_wf w s ->
  let xs := elems w s in
  let hs := healthy_of op timeout (wall w (reads w)) xs in
  exists s' maxFailures err w',
    ignoreUnhealthyInstancesReplicationStrategy_Filter s op rf timeout zone w
    = Ok ((s', maxFailures, err), w')
    /\ (err <> None <-> hs = [])
    /\ (hs = [] ->
        s' = nil_slice /\ maxFailures = 0 /\
        err = Some ("at least 1 healthy replica required, could only find 0"
                    +:+ match xs with
                        | [] => ""
                        | _ :: _ => " - unhealthy instances: "
                                    +:+ String.concat "," (map Addr xs)
                        end))
    /\ (hs <> [] ->
        err = None /\ elems w' s' = hs /\ maxFailures = Z.of_nat (length hs) - 1).
Proof.
  intros Hwf xs hs.
  rewrite ignoreUnhealthy_Filter_run by done. cbv zeta. fold xs hs.
  case_decide as Hn.
  - apply length_zero_iff_nil in Hn.
    eexists _, _, _, _. split; [done|]. split_and!; [done| |done].
    intros _. split_and!; [done..|].
    rewrite unhealthyStr_cases, (unhealthy_addrs_all _ _ _ _ Hn).
    by destruct xs.
  - assert (hs <> []) by (by intros ->).
    eexists _, _, _, _. split; [done|]. split_and!; [done|done|].
    intros _. split_and!; [done| |done]. by apply elems_kept_slice.
Qed.

(** ** Both strategies *)

(** C4: for either strategy the returned instances are a sub-sequence of
    the input, in the input's order, and every one of them is healthy at
    the one time the call read from the clock.  The call succeeds
    exactly when the healthy instances reach the threshold of the
    strategy, and then the returned instances are exactly the healthy
    instances of the input; when it fails it returns the nil slice,
    whatever the number of healthy instances. *)
Theorem Filter_healthy_subsequence r s op rf timeout zone w :
  slice_wf w s -> is_int rf ->
  let now := wall w (reads w) in
  let healthy := List.filter (fun x => IsHealthy x op timeout now) (elems w s) in
  let enough :=
    match r with
    | defaultReplicationStrategy =>
        Z.max rf (Z.of_nat (length healthy)) / 2 + 1 <= Z.of_nat (length healthy)
    | ignoreUnhealthyInstancesReplicationStrategy => healthy <> []
    end in
  exists s' maxFailures err w',
    Filter r s op rf timeout zone w = Ok ((s', maxFailures, err), w')
    /\ reads w' = S (reads w)
    /\ elems w' s' `sublist_of` elems w s
    /\ (forall x, x ∈ elems w' s' -> IsHealthy x op timeout now = true)
    /\ (err = None <-> enough)
    /\ (err = None -> elems w' s' = healthy)
    /\ (err <> None -> s' = nil_slice /\ elems w' s' = []).
Proof.
  intros Hwf Hrf now healthy enough.
  assert (Hsub : healthy `sublist_of` elems w s) by apply healthy_of_sublist.
  assert (Hall : forall x, x ∈ healthy -> IsHealthy x op timeout now = true).
  { intros x Hx. by apply elem_of_healthy_of in Hx as [_ ?]. }
  pose proof (elems_kept_slice op timeout w s Hwf) as Hkept.
  change (healthy_of op timeout (wall w (reads w)) (elems w s)) with healthy in Hkept.
  destruct r; cbn [Filter]; subst enough; cbv beta iota.
  - rewrite default_Filter_run by done. cbv zeta.
    change (healthy_of op timeout (wall w (reads w)) (elems w s)) with healthy.
    destruct (Z.ltb_spec (Z.of_nat (length healthy))
                (Z.max rf (Z.of_nat (length healthy)) / 2 + 1)) as [Hlt|Hge];
      eexists _, _, _, _; (split; [done|]); (split; [done|]).
    + split_and!; [apply sublist_nil_l| |split; [done|lia]|done|done].
      intros x Hx. by apply elem_of_nil in Hx.
    + rewrite Hkept. split_and!; [done|done|done|done|]. by intros [].
  - rewrite ignoreUnhealthy_Filter_run by done. cbv zeta.
    change (healthy_of op timeout (wall w (reads w)) (elems w s)) with healthy.
    case_decide as Hn; eexists _, _, _, _; (split; [done|]); (split; [done|]).
    + apply length_zero_iff_nil in Hn.
      split_and!; [apply sublist_nil_l| |split; [done|by intros []]|done|done].
      intros x Hx. by apply elem_of_nil in Hx.
    + rewrite Hkept. split_and!; [done|done| |done|by intros []].
      split; [|done]. intros _ Hnil. by rewrite Hnil in Hn.
Qed.

(** C5: a call is a function of the instances its slice denotes, of
    its other arguments and of the one reading it takes from the clock:
    two calls that agree on these return the same instances, the same
    failure budget and the same error.  The reading is taken by the call
    itself, which moves the clock by one. *)
Theorem Filter_deterministic r s1 s2 op rf timeout zone w1 w2 :
  slice_wf w1 s1 -> slice_wf w2 s2 -> is_int rf ->
  elems w1 s1 = elems w2 s2 ->
  wall w1 (reads w1) = wall w2 (reads w2) ->
  exists out res1 w1',
    returned (Filter r s1 op rf timeout zone w1) = Some out
    /\ returned (Filter r s2 op rf timeout zone w2) = Some out
    /\ Filter r s1 op rf timeout zone w1 = Ok (res1, w1')
    /\ reads w1' = S (reads w1).
Proof.
  intros Hwf1 Hwf2 Hrf Hxs Hnow.
  assert (Hret : returned (Filter r s1 op rf timeout zone w1)
                 = returned (Filter r s2 op rf timeout zone w2)).
  { destruct r; cbn [Filter].
    - rewrite !returned_default_Filter by done. cbv zeta. by rewrite Hxs, Hnow.
    - rewrite !returned_ignoreUnhealthy_Filter by done. cbv zeta.
      by rewrite Hxs, Hnow. }
  rewrite <- Hret.
  destruct (Filter_cases r s1 op rf timeout zone w1 Hwf1 Hrf) as [[msg ->]|[mf [-> _]]];
    by eexists _, _, _.
Qed.

(** C6: with a positive replication factor, a successful call of either
    strategy returns a failure budget that is not negative and is less
    than the number of instances it returns. *)
Theorem Filter_maxFailures_bound r s op rf timeout zone w s' maxFailures w' :
  slice_wf w s -> is_int rf -> 0 < rf ->
  Filter r s op rf timeout zone w = Ok ((s', maxFailures, None), w') ->
  0 <= maxFailures < Z.of_nat (length (elems w' s')).
Proof.
  intros Hwf Hrf _ Hrun.
  destruct (Filter_cases r s op rf timeout zone w Hwf Hrf)
    as [[msg Hf]|[mf [Hf Hmf]]]; rewrite Hf in Hrun; [done|].
  injection Hrun as <- <- <-. by rewrite elems_kept_slice.
Qed.

(** C7: when the quorum strategy fails, the text of its error gives
    [minSuccess], the number of healthy instances found and, when there
    are unhealthy instances, their addresses; with zone-awareness the
    text says that the replicas are required across different
    availability zones, and differs from the text without it. *)
Theorem quorum_error_message s op rf timeout w :
  slice_wf w s -> is_int rf ->
  let now := wall w (reads w) in
  let hs := List.filter (fun x => IsHealthy x op timeout now) (elems w s) in
  let unhealthy :=
    map Addr (List.filter (fun x => negb (IsHealthy x op timeout now)) (elems w s)) in
  let minSuccess := Z.max rf (Z.of_nat (length hs)) / 2 + 1 in
  let tail :=
    match unhealthy with
    | [] => ""
    | _ :: _ => " - unhealthy instances: " +:+ String.concat "," unhealthy
    end in
  Z.of_nat (length hs) < minSuccess ->
  exists zoned plain w',
    defaultReplicationStrategy_Filter s op rf timeout true w
    = Ok ((nil_slice, 0, Some zoned), w')
    /\ defaultReplicationStrategy_Filter s op rf timeout false w
       = Ok ((nil_slice, 0, Some plain), w')
    /\ zoned = "at least " +:+ pretty minSuccess +:+
               " live replicas required across different availability zones, could only find "
               +:+ pretty (Z.of_nat (length hs)) +:+ tail
    /\ plain = "at least " +:+ pretty minSuccess +:+
               " live replicas required, could only find "
               +:+ pretty (Z.of_nat (length hs)) +:+ tail
    /\ zoned <> plain.
Proof.
  intros Hwf Hrf now hs unhealthy m tl Hlt.
  eexists _, _, (after_filter op timeout w s).
  rewrite !default_Filter_run by done. cbv zeta.
  change (healthy_of op timeout (wall w (reads w)) (elems w s)) with hs.
  change (unhealthy_addrs op timeout (wall w (reads w)) (elems w s)) with unhealthy.
  fold m. destruct (Z.ltb_spec (Z.of_nat (length hs)) m); [|lia].
  split_and!; [done|done| | |].
  - unfold quorum_error, fmt_d. by rewrite unhealthyStr_cases.
  - unfold quorum_error, fmt_d. by rewrite unhealthyStr_cases.
  - unfold quorum_error. intros Heq.
    apply (inj (String.append _)) in Heq. apply (inj (String.append _)) in Heq.
    simplify_eq/=.
Qed.

(** C8: either strategy returns its error as a value, next to the nil
    slice and a zero budget, and never panics; the error is the text
    rendered from the required count, the count found, the
    zone-awareness flag and the unhealthy addresses, and nothing else. *)
Theorem Filter_error_is_text r s op rf timeout zone w :
  slice_wf w s -> is_int rf ->
  let now := wall w (reads w) in
  let hs := healthy_of op timeout now (elems w s) in
  let unhealthy := unhealthy_addrs op timeout now (elems w s) in
  let minSuccess := Z.max rf (Z.of_nat (length hs)) / 2 + 1 in
  exists s' maxFailures err w',
    Filter r s op rf timeout zone w = Ok ((s', maxFailures, err), w')
    /\ match err with
       | None => hs <> []
       | Some msg =>
           s' = nil_slice /\ maxFailures = 0 /\
           msg = match r with
                 | defaultReplicationStrategy =>
                     quorum_error zone minSuccess (Z.of_nat (length hs)) unhealthy
                 | ignoreUnhealthyInstancesReplicationStrategy =>
                     "at least 1 healthy replica required, could only find 0"
                     +:+ unhealthyStr unhealthy
                 end
       end.
Proof.
  intros Hwf Hrf now hs unhealthy m. destruct r; cbn [Filter].
  - rewrite default_Filter_run by done. cbv zeta. fold now hs unhealthy m.
    assert (0 <= Z.max rf (Z.of_nat (length hs)) / 2) by (apply Z.div_pos; lia).
    destruct (Z.ltb_spec (Z.of_nat (length hs)) m);
      eexists _, _, _, _; (split; [done|]); [done|].
    intros Hnil. assert (length hs = 0%nat) by (by rewrite Hnil).
    unfold m in *. lia.
  - rewrite ignoreUnhealthy_Filter_run by done. cbv zeta. fold now hs unhealthy.
    case_decide; eexists _, _, _, _; (split; [done|]); [done|].
    intros Hnil. by rewrite Hnil in *.
Qed.

Lemma filtered_array_frame op timeout now w s arr :
  length (take (off s) arr) = off s -> length (elems w s) = len s ->
  (off s + len s <= length arr)%nat ->
  let arr' := filtered_array op timeout now w s arr in
  take (off s) arr' = take (off s) arr
  /\ drop (off s + len s) arr' = drop (off s + len s) arr
  /\ length arr' = length arr.
Proof.
  intros Hpre Hxs Hin arr'. subst arr'. unfold filtered_array.
  pose proof (healthy_of_length op timeout now (elems w s)) as Hle.
  pose proof (length_fill_healthy op timeout now (elems w s)) as Hfill.
  split_and!.
  - by rewrite take_app_length'.
  - rewrite !app_assoc. apply drop_app_length'.
    rewrite !length_app, Hfill, Hpre. lia.
  - rewrite !length_app, Hfill, Hpre, length_drop. lia.
Qed.

(** C9: either strategy filters in place.  After the call the caller's
    slice reads the healthy instances followed by copies of its last
    element; a successful call returns a slice of the same backing array
    at the same offset; no array is allocated, and nothing outside the
    elements of the caller's slice is written. *)
Theorem Filter_filters_in_place r s op rf timeout zone w :
  slice_wf w s -> is_int rf ->
  let xs := elems w s in
  let hs := healthy_of op timeout (wall w (reads w)) xs in
  exists s' maxFailures err w',
    Filter r s op rf timeout zone w = Ok ((s', maxFailures, err), w')
    /\ elems w' s = hs ++ fill xs (length xs - length hs)
    /\ (err = None -> base s' = base s /\ off s' = off s /\ cap s' = cap s)
    /\ dom (heap w') = dom (heap w)
    /\ (forall l, base s <> Some l -> heap w' !! l = heap w !! l)
    /\ (forall l arr, base s = Some l -> heap w !! l = Some arr ->
        exists arr', heap w' !! l = Some arr'
          /\ length arr' = length arr
          /\ take (off s) arr' = take (off s) arr
          /\ drop (off s + len s) arr' = drop (off s + len s) arr).
Proof.
  intros Hwf Hrf xs hs.
  assert (Hframe : dom (heap (after_filter op timeout w s)) = dom (heap w)
    /\ (forall l, base s <> Some l -> heap (after_filter op timeout w s) !! l = heap w !! l)
    /\ (forall l arr, base s = Some l -> heap w !! l = Some arr ->
        exists arr', heap (after_filter op timeout w s) !! l = Some arr'
          /\ length arr' = length arr
          /\ take (off s) arr' = take (off s) arr
          /\ drop (off s + len s) arr' = drop (off s + len s) arr)).
  { unfold after_filter, filtered_heap. cbn [heap].
    destruct (base s) as [l|] eqn:Hl; [|done].
    destruct (slice_wf_array w s l Hwf Hl) as (arr & Harr & Hsplit & Hpre & Hxs).
    assert (Hin : (off s + len s <= length arr)%nat).
    { destruct Hwf as (Hlen & _ & Hb). rewrite Hl in Hb.
      destruct Hb as (arr0 & Harr0 & Hcap).
      rewrite Harr in Harr0. injection Harr0 as <-. lia. }
    split_and!.
    - apply dom_insert_lookup_L. by rewrite Harr.
    - intros l' Hl'. apply lookup_insert_ne. congruence.
    - intros l' arr' [= <-] Harr'. rewrite Harr in Harr'. injection Harr' as <-.
      rewrite lookup_insert_eq, Harr. cbn [default from_option id].
      eexists. split; [done|].
      destruct (filtered_array_frame op timeout (wall w (reads w)) w s arr)
        as (? & ? & ?); done. }
  destruct (Filter_cases r s op rf timeout zone w Hwf Hrf) as [[msg ->]|[mf [-> _]]];
    eexists _, _, _, _; (split; [done|]);
    (split; [by apply elems_after_filter|]); (split; [done|]); apply Hframe.
Qed.


(** ** Further properties of the strategies *)

Lemma healthy_of_all op timeout now xs :
  (forall x, x ∈ xs -> IsHealthy x op timeout now = true) ->
  healthy_of op timeout now xs = xs.
Proof.
  unfold healthy_of. induction xs as [|x xs IH]; intros Hall; simpl; [done|].
  rewrite (Hall x) by apply list_elem_of_here.
  rewrite IH; [done|]. intros y Hy. apply Hall. by apply list_elem_of_further.
Qed.

Lemma healthy_of_app op timeout now xs ys :
  healthy_of op timeout now (xs ++ ys)
  = healthy_of op timeout now xs ++ healthy_of op timeout now ys.
Proof. apply List.filter_app. Qed.

Lemma healthy_of_healthy op timeout now xs x :
  x ∈ healthy_of op timeout now xs -> IsHealthy x op timeout now = true.
Proof. intros Hx. by apply elem_of_healthy_of in Hx as [_ ?]. Qed.

Lemma healthy_unhealthy_count op timeout now xs :
  (length (healthy_of op timeout now xs)
   + length (unhealthy_addrs op timeout now xs) = length xs)%nat.
Proof.
  unfold unhealthy_addrs, healthy_of. rewrite length_map.
  induction xs as [|x xs IH]; simpl; [done|].
  destruct (IsHealthy x op timeout now); simpl; lia.
Qed.

Lemma elems_length w s : slice_wf w s -> length (elems w s) = len s.
Proof.
  intros Hwf. destruct (base s) as [l|] eqn:Hl.
  - by destruct (slice_wf_array w s l Hwf Hl) as (_ & _ & _ & _ & ?).
  - rewrite (slice_wf_nil w s Hwf Hl). unfold elems. by rewrite Hl.
Qed.

(** When every instance is healthy the loop writes nothing and the
    slice comes back as it went in. *)
Lemma filter_nothing op timeout w s :
  slice_wf w s ->
  healthy_of op timeout (wall w (reads w)) (elems w s) = elems w s ->
  after_filter op timeout w s = tick w /\ kept_slice op timeout w s = s.
Proof.
  intros Hwf Hall. split.
  - unfold after_filter, tick. f_equal. unfold filtered_heap.
    destruct (base s) as [l|] eqn:Hl; [|done].
    destruct (slice_wf_array w s l Hwf Hl) as (arr & Harr & Hsplit & _ & _).
    rewrite Harr. cbn [default from_option id]. apply insert_id.
    rewrite Harr. f_equal. unfold filtered_array. cbv zeta. rewrite Hall.
    rewrite Nat.sub_diag. unfold fill.
    by destruct (last (elems w s)); cbn [replicate app]; rewrite <- Hsplit.
  - unfold kept_slice. rewrite Hall, (elems_length w s Hwf). by destruct s.
Qed.

(** A call leaves both the caller's slice and the slice it returns
    well-formed. *)
Lemma slice_wf_after op timeout w s :
  slice_wf w s ->
  slice_wf (after_filter op timeout w s) s
  /\ slice_wf (after_filter op timeout w s) (kept_slice op timeout w s).
Proof.
  intros Hwf.
  pose proof (healthy_of_length op timeout (wall w (reads w)) (elems w s)) as Hle.
  rewrite (elems_length w s Hwf) in Hle.
  assert (Hb : match base s with
               | None => cap s = 0%nat
               | Some l => exists arr,
                   heap (after_filter op timeout w s) !! l = Some arr
                   /\ (off s + cap s <= length arr)%nat
               end).
  { destruct (base s) as [l|] eqn:Hl.
    - destruct (slice_wf_array w s l Hwf Hl) as (arr & Harr & _ & Hpre & Hxs).
      destruct Hwf as (Hlen & _ & Hb). rewrite Hl in Hb.
      destruct Hb as (arr0 & Harr0 & Hcap).
      rewrite Harr in Harr0. injection Harr0 as <-.
      unfold after_filter, filtered_heap. cbn [heap]. rewrite Hl, Harr.
      cbn [default from_option id]. eexists. split; [apply lookup_insert_eq|].
      destruct (filtered_array_frame op timeout (wall w (reads w)) w s arr)
        as (_ & _ & ->); [done|done|lia|done].
    - destruct Hwf as (_ & _ & Hb). by rewrite Hl in Hb. }
  destruct Hwf as (Hlen & Hcap & _).
  split; (split_and!; [|done|done]); [done|]. cbn [kept_slice len cap]. lia.
Qed.

(** The successful returns of the two strategies, read backwards. *)
Lemma default_Filter_success_inv s op rf timeout zone w s' maxFailures w' :
  slice_wf w s -> is_int rf ->
  defaultReplicationStrategy_Filter s op rf timeout zone w
  = Ok ((s', maxFailures, None), w') ->
  let hs := healthy_of op timeout (wall w (reads w)) (elems w s) in
  let m := Z.max rf (Z.of_nat (length hs)) / 2 + 1 in
  s' = kept_slice op timeout w s /\ w' = after_filter op timeout w s
  /\ maxFailures = Z.of_nat (length hs) - m /\ m <= Z.of_nat (length hs).
Proof.
  intros Hwf Hrf Hrun hs m. rewrite default_Filter_run in Hrun by done.
  cbv zeta in Hrun. fold hs m in Hrun.
  destruct (Z.ltb_spec (Z.of_nat (length hs)) m); [done|].
  by injection Hrun as <- <- <-.
Qed.

Lemma default_Filter_success s op rf timeout zone w :
  slice_wf w s -> is_int rf ->
  let hs := healthy_of op timeout (wall w (reads w)) (elems w s) in
  let m := Z.max rf (Z.of_nat (length hs)) / 2 + 1 in
  m <= Z.of_nat (length hs) ->
  defaultReplicationStrategy_Filter s op rf timeout zone w
  = Ok ((kept_slice op timeout w s, Z.of_nat (length hs) - m, None),
        after_filter op timeout w s).
Proof.
  intros Hwf Hrf hs m Hm. rewrite default_Filter_run by done.
  cbv zeta. fold hs m. by destruct (Z.ltb_spec (Z.of_nat (length hs)) m); [lia|].
Qed.

Lemma ignoreUnhealthy_Filter_success_inv s op rf timeout zone w s' maxFailures w' :
  slice_wf w s ->
  ignoreUnhealthyInstancesReplicationStrategy_Filter s op rf timeout zone w
  = Ok ((s', maxFailures, None), w') ->
  let hs := healthy_of op timeout (wall w (reads w)) (elems w s) in
  s' = kept_slice op timeout w s /\ w' = after_filter op timeout w s
  /\ maxFailures = Z.of_nat (length hs) - 1 /\ hs <> [].
Proof.
  intros Hwf Hrun hs. rewrite ignoreUnhealthy_Filter_run in Hrun by done.
  cbv zeta in Hrun. fold hs in Hrun. case_decide as Hn; [done|].
  injection Hrun as <- <- <-. split_and!; [done..|]. by intros Hnil; rewrite Hnil in Hn.
Qed.

Lemma ignoreUnhealthy_Filter_success s op rf timeout zone w :
  slice_wf w s ->
  let hs := healthy_of op timeout (wall w (reads w)) (elems w s) in
  hs <> [] ->
  ignoreUnhealthyInstancesReplicationStrategy_Filter s op rf timeout zone w
  = Ok ((kept_slice op timeout w s, Z.of_nat (length hs) - 1, None),
        after_filter op timeout w s).
Proof.
  intros Hwf hs Hne. rewrite ignoreUnhealthy_Filter_run by done.
  cbv zeta. fold hs. case_decide as Hn; [|done].
  by apply length_zero_iff_nil in Hn.
Qed.

(** An empty candidate list, nil or not, is an error for both
    strategies, whatever the replication factor; the text lists no
    address, and the call writes nothing. *)
Theorem Filter_empty_input r s op rf timeout zone w :
  slice_wf w s -> is_int rf -> len s = 0%nat ->
  Filter r s op rf timeout zone w
  = Ok ((nil_slice, 0,
         Some match r with
              | defaultReplicationStrategy =>
                  "at least " +:+ pretty (Z.max rf 0 / 2 + 1) +:+
                  (if zone
                   then " live replicas required across different availability zones, could only find 0"
                   else " live replicas required, could only find 0")
              | ignoreUnhealthyInstancesReplicationStrategy =>
                  "at least 1 healthy replica required, could only find 0"
              end),
        tick w).
Proof.
  intros Hwf Hrf Hlen.
  assert (Hxs : elems w s = []).
  { apply length_zero_iff_nil. by rewrite elems_length. }
  destruct (filter_nothing op timeout w s Hwf) as [Haf _].
  { by rewrite Hxs. }
  destruct r; cbn [Filter].
  - rewrite default_Filter_run by done. cbv zeta. rewrite Haf, Hxs.
    cbn [healthy_of unhealthy_addrs List.filter map length].
    change (Z.of_nat 0) with 0.
    assert (0 <= Z.max rf 0 / 2) by (apply Z.div_pos; lia).
    destruct (Z.ltb_spec 0 (Z.max rf 0 / 2 + 1)); [|lia].
    unfold quorum_error, fmt_d. destruct zone; reflexivity.
  - rewrite ignoreUnhealthy_Filter_run by done. cbv zeta. rewrite Haf, Hxs.
    cbn [healthy_of unhealthy_addrs List.filter map length].
    by case_decide.
Qed.

(** When every candidate is healthy a call writes nothing to the heap,
    and if it succeeds it returns the very slice it was given. *)
Theorem Filter_all_healthy r s op rf timeout zone w :
  slice_wf w s -> is_int rf ->
  (forall x, x ∈ elems w s -> IsHealthy x op timeout (wall w (reads w)) = true) ->
  exists s' maxFailures err,
    Filter r s op rf timeout zone w = Ok ((s', maxFailures, err), tick w)
    /\ (err = None -> s' = s).
Proof.
  intros Hwf Hrf Hall.
  destruct (filter_nothing op timeout w s Hwf) as [Haf Hks].
  { by apply healthy_of_all. }
  destruct (Filter_cases r s op rf timeout zone w Hwf Hrf) as [[msg ->]|[mf [-> _]]];
    rewrite Haf; eexists _, _, _; (split; [done|]); [done|].
  by rewrite Hks.
Qed.

(** The successes a successful quorum call still requires,
    [len(healthy) - maxFailures], are a strict majority of the
    replication factor and of the healthy instances, and the least such
    number. *)
Theorem quorum_requires_strict_majority s op rf timeout zone w s' maxFailures w' :
  slice_wf w s -> is_int rf ->
  defaultReplicationStrategy_Filter s op rf timeout zone w
  = Ok ((s', maxFailures, None), w') ->
  let n := Z.of_nat (length (elems w' s')) in
  let required := n - maxFailures in
  rf < 2 * required /\ n < 2 * required
  /\ 2 * (required - 1) <= Z.max rf n.
Proof.
  intros Hwf Hrf Hrun.
  destruct (default_Filter_success_inv _ _ _ _ _ _ _ _ _ Hwf Hrf Hrun)
    as (-> & -> & -> & Hm).
  rewrite elems_kept_slice by done. cbv zeta.
  set (n := Z.of_nat (length (healthy_of op timeout (wall w (reads w)) (elems w s)))) in *.
  assert (0 <= n) by (subst n; lia). clearbody n.
  Z.div_mod_to_equations. lia.
Qed.

(** A candidate set extended beyond the replication factor never fails
    for its size: with at least one healthy instance and no fewer than
    the replication factor, the quorum strategy succeeds and tolerates
    [(len(healthy) - 1) / 2] failures. *)
Theorem quorum_extended_set_succeeds s op rf timeout zone w :
  slice_wf w s -> is_int rf ->
  let hs := healthy_of op timeout (wall w (reads w)) (elems w s) in
  (1 <= length hs)%nat -> rf <= Z.of_nat (length hs) ->
  exists s' w',
    defaultReplicationStrategy_Filter s op rf timeout zone w
    = Ok ((s', (Z.of_nat (length hs) - 1) / 2, None), w')
    /\ elems w' s' = hs.
Proof.
  intros Hwf Hrf hs Hone Hext.
  exists (kept_slice op timeout w s), (after_filter op timeout w s).
  split; [|by apply elems_kept_slice].
  assert (Hmax : Z.max rf (Z.of_nat (length hs)) = Z.of_nat (length hs)) by lia.
  assert (Hq : Z.of_nat (length hs) / 2 + 1 <= Z.of_nat (length hs)
               /\ Z.of_nat (length hs) - (Z.of_nat (length hs) / 2 + 1)
                  = (Z.of_nat (length hs) - 1) / 2).
  { assert (1 <= Z.of_nat (length hs)) by lia.
    generalize dependent (Z.of_nat (length hs)). intros n _ _ Hn.
    Z.div_mod_to_equations. lia. }
  destruct Hq as [Hq1 Hq2].
  rewrite default_Filter_success by (done || fold hs; rewrite Hmax; done).
  fold hs. by rewrite Hmax, Hq2.
Qed.

(** With no more candidates than the replication factor, the instances
    found unhealthy are charged to a fixed budget: the quorum strategy
    succeeds exactly when they leave [rf/2 + 1] of the candidates, and
    then the unhealthy instances and the failures still tolerated add up
    to [len(instances) - (rf/2 + 1)]. *)
Theorem quorum_budget_counts_unhealthy s op rf timeout zone w :
  slice_wf w s -> is_int rf ->
  let xs := elems w s in
  let unhealthy := unhealthy_addrs op timeout (wall w (reads w)) xs in
  Z.of_nat (length xs) <= rf ->
  exists s' maxFailures err w',
    defaultReplicationStrategy_Filter s op rf timeout zone w
    = Ok ((s', maxFailures, err), w')
    /\ (err = None <->
        Z.of_nat (length unhealthy) + (rf / 2 + 1) <= Z.of_nat (length xs))
    /\ (err = None ->
        maxFailures + Z.of_nat (length unhealthy)
        = Z.of_nat (length xs) - (rf / 2 + 1)).
Proof.
  intros Hwf Hrf xs unhealthy Hle.
  pose proof (healthy_unhealthy_count op timeout (wall w (reads w)) xs) as Hcount.
  fold unhealthy in Hcount.
  rewrite default_Filter_run by done. cbv zeta. fold xs.
  set (hs := healthy_of op timeout (wall w (reads w)) xs) in *.
  assert (Hmax : Z.max rf (Z.of_nat (length hs)) = rf) by lia.
  rewrite Hmax.
  destruct (Z.ltb_spec (Z.of_nat (length hs)) (rf / 2 + 1));
    eexists _, _, _, _; (split; [done|]); split.
  - split; [done|lia].
  - done.
  - split; [lia|done].
  - intros _. lia.
Qed.

(** Where the quorum strategy succeeds the best-effort strategy does
    too, with the same instances and the same store, and tolerates at
    least as many failures. *)
Theorem ignoreUnhealthy_succeeds_where_quorum_does
    s op rf timeout zone w s' maxFailures w' :
  slice_wf w s -> is_int rf ->
  defaultReplicationStrategy_Filter s op rf timeout zone w
  = Ok ((s', maxFailures, None), w') ->
  exists maxFailures',
    ignoreUnhealthyInstancesReplicationStrategy_Filter s op rf timeout zone w
    = Ok ((s', maxFailures', None), w')
    /\ maxFailures <= maxFailures'.
Proof.
  intros Hwf Hrf Hrun.
  destruct (default_Filter_success_inv _ _ _ _ _ _ _ _ _ Hwf Hrf Hrun)
    as (-> & -> & -> & Hm).
  set (hs := healthy_of op timeout (wall w (reads w)) (elems w s)) in *.
  assert (0 <= Z.max rf (Z.of_nat (length hs)) / 2) by (apply Z.div_pos; lia).
  eexists. split.
  - apply ignoreUnhealthy_Filter_success; [done|]. fold hs.
    intros Hnil. assert (length hs = 0%nat) by (by rewrite Hnil). lia.
  - fold hs. lia.
Qed.

(** Lowering the replication factor never turns a quorum success into a
    failure and never lowers the failures tolerated. *)
Theorem quorum_monotone_in_replicationFactor
    s op rf1 rf2 timeout zone w s' maxFailures2 w' :
  slice_wf w s -> is_int rf1 -> is_int rf2 -> rf1 <= rf2 ->
  defaultReplicationStrategy_Filter s op rf2 timeout zone w
  = Ok ((s', maxFailures2, None), w') ->
  exists maxFailures1,
    defaultReplicationStrategy_Filter s op rf1 timeout zone w
    = Ok ((s', maxFailures1, None), w')
    /\ maxFailures2 <= maxFailures1.
Proof.
  intros Hwf Hrf1 Hrf2 Hle Hrun.
  destruct (default_Filter_success_inv _ _ _ _ _ _ _ _ _ Hwf Hrf2 Hrun)
    as (-> & -> & -> & Hm).
  set (hs := healthy_of op timeout (wall w (reads w)) (elems w s)) in *.
  assert (Hmono : Z.max rf1 (Z.of_nat (length hs)) / 2
                  <= Z.max rf2 (Z.of_nat (length hs)) / 2)
    by (apply Z.div_le_mono; lia).
  eexists. split.
  - apply default_Filter_success; [done|done|]. fold hs. lia.
  - fold hs. lia.
Qed.

(** The zone-awareness flag changes the text of the error and nothing
    else: the instances, the failure budget, the store and whether there
    is an error are the same with and without it. *)
Theorem quorum_zone_flag_changes_text_only s op rf timeout w :
  slice_wf w s -> is_int rf ->
  exists s' maxFailures err1 err2 w',
    defaultReplicationStrategy_Filter s op rf timeout true w
    = Ok ((s', maxFailures, err1), w')
    /\ defaultReplicationStrategy_Filter s op rf timeout false w
       = Ok ((s', maxFailures, err2), w')
    /\ (err1 = None <-> err2 = None).
Proof.
  intros Hwf Hrf. rewrite !default_Filter_run by done. cbv zeta.
  destruct (_ <? _); eexists _, _, _, _, _; split_and!; done.
Qed.

(** Filtering again what a call returned, at a reading of the clock
    that judges the instances as the first did, returns the same slice
    and the same budget and writes nothing. *)
Theorem Filter_again_on_returned_slice r s op rf timeout zone w s' maxFailures w' :
  slice_wf w s -> is_int rf ->
  Filter r s op rf timeout zone w = Ok ((s', maxFailures, None), w') ->
  (forall x, x ∈ elems w s ->
     IsHealthy x op timeout (wall w (S (reads w)))
     = IsHealthy x op timeout (wall w (reads w))) ->
  Filter r s' op rf timeout zone w' = Ok ((s', maxFailures, None), tick w').
Proof.
  intros Hwf Hrf Hrun Hsame.
  set (hs := healthy_of op timeout (wall w (reads w)) (elems w s)).
  assert (Hshape : s' = kept_slice op timeout w s /\ w' = after_filter op timeout w s).
  { destruct r; cbn [Filter] in Hrun.
    - by destruct (default_Filter_success_inv _ _ _ _ _ _ _ _ _ Hwf Hrf Hrun)
        as (-> & -> & _).
    - by destruct (ignoreUnhealthy_Filter_success_inv _ _ _ _ _ _ _ _ _ Hwf Hrun)
        as (-> & -> & _). }
  destruct Hshape as [-> ->].
  destruct (slice_wf_after op timeout w s Hwf) as [_ Hwf'].
  pose proof (elems_kept_slice op timeout w s Hwf) as Hel. fold hs in Hel.
  assert (Hhs : healthy_of op timeout
                  (wall (after_filter op timeout w s) (reads (after_filter op timeout w s)))
                  (elems (after_filter op timeout w s) (kept_slice op timeout w s))
                = hs).
  { rewrite Hel. cbn [after_filter wall reads]. apply healthy_of_all.
    intros x Hx. rewrite Hsame.
    - by apply healthy_of_healthy in Hx.
    - by apply elem_of_healthy_of in Hx as [? _]. }
  destruct (filter_nothing op timeout _ _ Hwf') as [Haf Hks]; [by rewrite Hhs, Hel|].
  destruct r; cbn [Filter] in *.
  - destruct (default_Filter_success_inv _ _ _ _ _ _ _ _ _ Hwf Hrf Hrun)
      as (_ & _ & -> & Hm). fold hs in Hm |- *.
    rewrite default_Filter_success by (done || rewrite Hhs; done).
    by rewrite Hhs, Haf, Hks.
  - destruct (ignoreUnhealthy_Filter_success_inv _ _ _ _ _ _ _ _ _ Hwf Hrun)
      as (_ & _ & -> & Hne). fold hs in Hne |- *.
    rewrite ignoreUnhealthy_Filter_success by (done || rewrite Hhs; done).
    by rewrite Hhs, Haf, Hks.
Qed.

Lemma healthy_of_replicate op timeout now k z :
  healthy_of op timeout now (replicate k z)
  = if IsHealthy z op timeout now then replicate k z else [].
Proof.
  unfold healthy_of. induction k as [|k IH]; simpl.
  - by destruct (IsHealthy z op timeout now).
  - rewrite IH. by destruct (IsHealthy z op timeout now).
Qed.

(** Filtering the caller's own slice a second time, at a reading of the
    clock that judges the instances as the first did: the call finds the
    healthy instances followed, if the last candidate was healthy, by
    one copy of it for each instance the first call removed.  It
    succeeds, returns them all, and tolerates no fewer failures than the
    first call. *)
Theorem Filter_again_on_caller_slice r s op rf timeout zone w s' maxFailures w' z :
  slice_wf w s -> is_int rf ->
  Filter r s op rf timeout zone w = Ok ((s', maxFailures, None), w') ->
  (forall x, x ∈ elems w s ->
     IsHealthy x op timeout (wall w (S (reads w)))
     = IsHealthy x op timeout (wall w (reads w))) ->
  last (elems w s) = Some z ->
  let hs := healthy_of op timeout (wall w (reads w)) (elems w s) in
  let removed := (length (elems w s) - length hs)%nat in
  let again :=
    hs ++ (if IsHealthy z op timeout (wall w (reads w))
           then replicate removed z else []) in
  exists maxFailures2,
    returned (Filter r s op rf timeout zone w') = Some (again, maxFailures2, None)
    /\ maxFailures <= maxFailures2.
Proof.
  intros Hwf Hrf Hrun Hsame Hlast hs removed again.
  assert (Hshape : w' = after_filter op timeout w s).
  { destruct r; cbn [Filter] in Hrun.
    - by destruct (default_Filter_success_inv _ _ _ _ _ _ _ _ _ Hwf Hrf Hrun)
        as (_ & -> & _).
    - by destruct (ignoreUnhealthy_Filter_success_inv _ _ _ _ _ _ _ _ _ Hwf Hrun)
        as (_ & -> & _). }
  subst w'.
  destruct (slice_wf_after op timeout w s Hwf) as [Hwf' _].
  assert (Hz : z ∈ elems w s).
  { apply last_Some in Hlast as [l' ->]. apply elem_of_app. right.
    apply list_elem_of_here. }
  assert (Hagain : healthy_of op timeout
                     (wall (after_filter op timeout w s)
                        (reads (after_filter op timeout w s)))
                     (elems (after_filter op timeout w s) s)
                   = again).
  { rewrite elems_after_filter by done. fold hs removed.
    cbn [after_filter wall reads]. unfold fill. rewrite Hlast.
    rewrite healthy_of_app, healthy_of_replicate, (Hsame z Hz). f_equal.
    apply healthy_of_all. intros x Hx. rewrite Hsame.
    - by apply healthy_of_healthy in Hx.
    - by apply elem_of_healthy_of in Hx as [? _]. }
  assert (Hlen : (length hs <= length again)%nat).
  { unfold again. rewrite length_app. lia. }
  destruct r; cbn [Filter] in *.
  - destruct (default_Filter_success_inv _ _ _ _ _ _ _ _ _ Hwf Hrf Hrun)
      as (_ & _ & -> & Hm). fold hs in Hm |- *.
    rewrite returned_default_Filter by done. cbv zeta. rewrite Hagain.
    assert (Harith :
      Z.max rf (Z.of_nat (length again)) / 2 + 1 <= Z.of_nat (length again)
      /\ Z.of_nat (length hs) - (Z.max rf (Z.of_nat (length hs)) / 2 + 1)
         <= Z.of_nat (length again)
            - (Z.max rf (Z.of_nat (length again)) / 2 + 1)).
    { assert (Hle : Z.of_nat (length hs) <= Z.of_nat (length again)) by lia.
      assert (0 <= Z.of_nat (length hs)) by lia.
      generalize dependent (Z.of_nat (length again)).
      generalize dependent (Z.of_nat (length hs)). clear.
      intros h Hm Hh a Ha.
      destruct (Z.max_spec rf h) as [[? Hmh]|[? Hmh]];
        destruct (Z.max_spec rf a) as [[? Hma]|[? Hma]];
        rewrite Hmh in *; rewrite Hma;
        Z.div_mod_to_equations; lia. }
    destruct Harith as [Hok Hmono].
    destruct (Z.ltb_spec (Z.of_nat (length again))
                (Z.max rf (Z.of_nat (length again)) / 2 + 1)); [lia|].
    by eexists.
  - destruct (ignoreUnhealthy_Filter_success_inv _ _ _ _ _ _ _ _ _ Hwf Hrun)
      as (_ & _ & -> & Hne). fold hs in Hne |- *.
    rewrite returned_ignoreUnhealthy_Filter by done. cbv zeta. rewrite Hagain.
    case_decide as Hn.
    + exfalso. apply Hne, length_zero_iff_nil. lia.
    + eexists. split; [done|lia].
Qed.

(** ** The ring facade *)

(** The instances a successful call returns, when it is given the
    heartbeat timeout and the replication factor of a ring, are the
    candidates that [Ring.IsHealthy] accepts at the time the call read
    from the clock. *)
Theorem Filter_returns_what_the_ring_calls_healthy
    (ring : Ring) r s op zone w s' maxFailures w' :
  slice_wf w s -> is_int (Ring_ReplicationFactor ring) ->
  Filter r s op (Ring_ReplicationFactor ring) (HeartbeatTimeout (cfg ring)) zone w
  = Ok ((s', maxFailures, None), w') ->
  forall x,
    x ∈ elems w' s'
    <-> x ∈ elems w s /\ Ring_IsHealthy ring x op (wall w (reads w)) = true.
Proof.
  intros Hwf Hrf Hrun x. unfold Ring_IsHealthy.
  assert (Hshape : s' = kept_slice op (HeartbeatTimeout (cfg ring)) w s
                   /\ w' = after_filter op (HeartbeatTimeout (cfg ring)) w s).
  { destruct r; cbn [Filter] in Hrun.
    - by destruct (default_Filter_success_inv _ _ _ _ _ _ _ _ _ Hwf Hrf Hrun)
        as (-> & -> & _).
    - by destruct (ignoreUnhealthy_Filter_success_inv _ _ _ _ _ _ _ _ _ Hwf Hrun)
        as (-> & -> & _). }
  destruct Hshape as [-> ->]. rewrite elems_kept_slice by done.
  apply elem_of_healthy_of.
Qed.

End Strategies.

(** ** The strategies at work *)

Lemma whole_wf arr now :
  Z.of_nat (length arr) <= int_max -> slice_wf (world_of arr now) (whole arr).
Proof.
  intros Hn. split_and!; [done|done|]. cbn [base whole world_of heap].
  exists arr. split; [|simpl; lia]. apply lookup_singleton_eq.
Qed.

Lemma shifted_wf arr now :
  Z.of_nat (length arr) <= int_max ->
  slice_wf (world_shifted arr now) (shifted arr).
Proof.
  intros Hn. split_and!; [done|done|]. cbn [base shifted world_shifted heap].
  eexists. split; [apply lookup_singleton_eq|]. simpl. lia.
Qed.

Lemma small_is_int z : -1000 <= z <= 1000 -> is_int z.
Proof. unfold is_int, int_min, int_max. lia. Qed.

(** Three candidates, one of them stale, replication factor 3: the
    factor stays 3, [minSuccess] is 2, the two healthy instances are
    returned and none may fail. *)
Example quorum_one_stale :
  returned (Filter Op specIsHealthy defaultReplicationStrategy
              (whole [inst "a" 95; inst "b" 5; inst "c" 99]) Write 3 10 false
              (world_of [inst "a" 95; inst "b" 5; inst "c" 99] 100))
  = Some ([inst "a" 95; inst "c" 99], 0, None).
Proof. vm_compute. reflexivity. Qed.

(** Four candidates, all stale, under the best-effort strategy: the
    error lists the four addresses. *)
Example ignoreUnhealthy_all_stale :
  returned (Filter Op specIsHealthy ignoreUnhealthyInstancesReplicationStrategy
              (whole [inst "a" 1; inst "b" 2; inst "c" 3; inst "d" 4]) Read 3 10 false
              (world_of [inst "a" 1; inst "b" 2; inst "c" 3; inst "d" 4] 100))
  = Some ([], 0,
          Some "at least 1 healthy replica required, could only find 0 - unhealthy instances: a,b,c,d").
Proof. vm_compute. reflexivity. Qed.

(** A slice in the middle of its array: the elements before it and
    after it stay, the freed slot keeps the last element. *)
Example quorum_inner_slice :
  match
    Filter Op specIsHealthy defaultReplicationStrategy
      (mkSlice (Some 1%positive) 1 3 3) Write 1 10 false
      (world_of [inst "p" 0; inst "a" 95; inst "b" 5; inst "c" 99; inst "q" 0] 100)
  with
  | Ok ((s, maxFailures, err), w) =>
      s = mkSlice (Some 1%positive) 1 2 3 /\ maxFailures = 0 /\ err = None /\
      heap w !! 1%positive
      = Some [inst "p" 0; inst "a" 95; inst "c" 99; inst "c" 99; inst "q" 0]
  | _ => False
  end.
Proof. vm_compute. split_and!; reflexivity. Qed.

(** Five candidates, all healthy, replication factor 3: [minSuccess] is
    [5/2+1 = 3], all five are returned, two may fail. *)
Lemma quorum_Filter_success_witness :
  slice_wf (world_of five_healthy 100) (whole five_healthy) /\ is_int 3 /\
  exists s' w',
    defaultReplicationStrategy_Filter Op specIsHealthy (whole five_healthy)
      Write 3 10 false (world_of five_healthy 100)
    = Ok ((s', 2, None), w')
    /\ elems w' s' = five_healthy.
Proof.
  assert (Hwf : slice_wf (world_of five_healthy 100) (whole five_healthy))
    by (apply whole_wf; vm_compute; discriminate).
  assert (Hint : is_int 3) by (apply small_is_int; lia).
  split; [exact Hwf|]. split; [exact Hint|].
  apply (quorum_Filter_success Op specIsHealthy (whole five_healthy) Write 3 10
           false (world_of five_healthy 100) Hwf Hint).
  vm_compute. discriminate.
Defined.

(** Three candidates, two of them stale, replication factor 3: one
    healthy instance is less than [minSuccess = 2]. *)
Lemma quorum_Filter_failure_witness :
  slice_wf (world_of two_stale 100) (whole two_stale) /\ is_int 3 /\
  exists msg w',
    defaultReplicationStrategy_Filter Op specIsHealthy (whole two_stale)
      Write 3 10 false (world_of two_stale 100)
    = Ok ((nil_slice, 0, Some msg), w')
    /\ elems w' nil_slice = [].
Proof.
  assert (Hwf : slice_wf (world_of two_stale 100) (whole two_stale))
    by (apply whole_wf; vm_compute; discriminate).
  assert (Hint : is_int 3) by (apply small_is_int; lia).
  split; [exact Hwf|]. split; [exact Hint|].
  apply (quorum_Filter_failure Op specIsHealthy (whole two_stale) Write 3 10
           false (world_of two_stale 100) Hwf Hint).
  vm_compute. reflexivity.
Defined.

(** The best-effort strategy on the same three candidates: the one
    healthy instance is returned and none may fail. *)
Lemma ignoreUnhealthy_Filter_spec_witness :
  slice_wf (world_of two_stale 100) (whole two_stale) /\
  exists s' w',
    ignoreUnhealthyInstancesReplicationStrategy_Filter Op specIsHealthy
      (whole two_stale) Write 3 10 false (world_of two_stale 100)
    = Ok ((s', 0, None), w')
    /\ elems w' s' = [inst "a" 95].
Proof.
  assert (Hwf : slice_wf (world_of two_stale 100) (whole two_stale))
    by (apply whole_wf; vm_compute; discriminate).
  split; [exact Hwf|].
  destruct (ignoreUnhealthy_Filter_spec Op specIsHealthy (whole two_stale) Write 3 10
              false (world_of two_stale 100) Hwf)
    as (s' & mf & err & w' & Hrun & _ & _ & Hok).
  destruct Hok as (-> & Hel & ->); [vm_compute; discriminate|].
  exists s', w'. split; [exact Hrun|exact Hel].
Defined.

(** Three candidates with a stale one in the middle: the quorum
    strategy succeeds and returns the other two, in their order, judged
    at the one reading of the clock. *)
Lemma Filter_healthy_subsequence_witness :
  slice_wf (world_of one_stale 100) (whole one_stale) /\ is_int 3 /\
  exists s' maxFailures w',
    Filter Op specIsHealthy defaultReplicationStrategy
      (whole one_stale) Write 3 10 false (world_of one_stale 100)
    = Ok ((s', maxFailures, None), w')
    /\ reads w' = 1%nat
    /\ elems w' s' = [inst "a" 95; inst "c" 99].
Proof.
  assert (Hwf : slice_wf (world_of one_stale 100) (whole one_stale))
    by (apply whole_wf; vm_compute; discriminate).
  assert (Hint : is_int 3) by (apply small_is_int; lia).
  split; [exact Hwf|]. split; [exact Hint|].
  destruct (Filter_healthy_subsequence Op specIsHealthy defaultReplicationStrategy
              (whole one_stale) Write 3 10 false (world_of one_stale 100) Hwf Hint)
    as (s' & mf & err & w' & Hrun & Hreads & _ & _ & Hiff & Hexact & _).
  assert (Herr : err = None) by (apply Hiff; vm_compute; discriminate).
  rewrite Herr in Hrun.
  exists s', mf, w'. split; [exact Hrun|]. split; [exact Hreads|exact (Hexact Herr)].
Defined.

(** The same instances in two stores, behind two slices, at the same
    reading of the clock: the same result. *)
Lemma Filter_deterministic_witness :
  slice_wf (world_of two_stale 100) (whole two_stale) /\
  slice_wf (world_shifted two_stale 100) (shifted two_stale) /\ is_int 1 /\
  returned (Filter Op specIsHealthy defaultReplicationStrategy
              (whole two_stale) Write 1 10 false (world_of two_stale 100))
  = returned (Filter Op specIsHealthy defaultReplicationStrategy
                (shifted two_stale) Write 1 10 false (world_shifted two_stale 100)).
Proof.
  assert (Hwf1 : slice_wf (world_of two_stale 100) (whole two_stale))
    by (apply whole_wf; vm_compute; discriminate).
  assert (Hwf2 : slice_wf (world_shifted two_stale 100) (shifted two_stale))
    by (apply shifted_wf; vm_compute; discriminate).
  assert (Hint : is_int 1) by (apply small_is_int; lia).
  split; [exact Hwf1|]. split; [exact Hwf2|]. split; [exact Hint|].
  destruct (Filter_deterministic Op specIsHealthy defaultReplicationStrategy
              (whole two_stale) (shifted two_stale) Write 1 10 false
              (world_of two_stale 100) (world_shifted two_stale 100)
              Hwf1 Hwf2 Hint eq_refl eq_refl)
    as (out & _ & _ & H1 & H2 & _).
  exact (eq_trans H1 (eq_sym H2)).
Defined.

(** Five healthy instances, replication factor 3: the budget of two is
    below five. *)
Lemma Filter_maxFailures_bound_witness :
  slice_wf (world_of five_healthy 100) (whole five_healthy) /\ is_int 3 /\ 0 < 3 /\
  Filter Op specIsHealthy defaultReplicationStrategy (whole five_healthy)
    Write 3 10 false (world_of five_healthy 100)
  = Ok ((whole five_healthy, 2, None),
        mkWorld {[ 1%positive := five_healthy ]} (fun _ => 100) 1) /\
  0 <= 2 < Z.of_nat
             (length (elems (mkWorld {[ 1%positive := five_healthy ]} (fun _ => 100) 1)
                        (whole five_healthy))).
Proof.
  assert (Hwf : slice_wf (world_of five_healthy 100) (whole five_healthy))
    by (apply whole_wf; vm_compute; discriminate).
  assert (Hint : is_int 3) by (apply small_is_int; lia).
  assert (Hrun : Filter Op specIsHealthy defaultReplicationStrategy (whole five_healthy)
                   Write 3 10 false (world_of five_healthy 100)
                 = Ok ((whole five_healthy, 2, None),
                       mkWorld {[ 1%positive := five_healthy ]} (fun _ => 100) 1))
    by (vm_compute; reflexivity).
  split; [exact Hwf|]. split; [exact Hint|]. split; [lia|]. split; [exact Hrun|].
  apply (Filter_maxFailures_bound Op specIsHealthy defaultReplicationStrategy
           (whole five_healthy) Write 3 10 false (world_of five_healthy 100)
           _ _ _ Hwf Hint ltac:(lia) Hrun).
Defined.

(** The two texts of the error, for one healthy instance out of three. *)
Lemma quorum_error_message_witness :
  slice_wf (world_of two_stale 100) (whole two_stale) /\ is_int 3 /\
  exists w',
    defaultReplicationStrategy_Filter Op specIsHealthy (whole two_stale)
      Write 3 10 true (world_of two_stale 100)
    = Ok ((nil_slice, 0,
           Some "at least 2 live replicas required across different availability zones, could only find 1 - unhealthy instances: b,c"),
          w')
    /\ defaultReplicationStrategy_Filter Op specIsHealthy (whole two_stale)
         Write 3 10 false (world_of two_stale 100)
       = Ok ((nil_slice, 0,
              Some "at least 2 live replicas required, could only find 1 - unhealthy instances: b,c"),
             w').
Proof.
  assert (Hwf : slice_wf (world_of two_stale 100) (whole two_stale))
    by (apply whole_wf; vm_compute; discriminate).
  assert (Hint : is_int 3) by (apply small_is_int; lia).
  split; [exact Hwf|]. split; [exact Hint|].
  destruct (quorum_error_message Op specIsHealthy (whole two_stale) Write 3 10
              (world_of two_stale 100) Hwf Hint)
    as (zoned & plain & w' & Hz & Hp & -> & -> & _); [vm_compute; reflexivity|].
  exists w'. split; [exact Hz|exact Hp].
Defined.

(** No healthy instance: the best-effort strategy returns its error,
    a text, as a value. *)
Lemma Filter_error_is_text_witness :
  slice_wf (world_of two_addrs 100) (whole two_addrs) /\ is_int 3 /\
  exists w',
    Filter Op specIsHealthy ignoreUnhealthyInstancesReplicationStrategy
      (whole two_addrs) Write 3 10 false (world_of two_addrs 100)
    = Ok ((nil_slice, 0,
           Some "at least 1 healthy replica required, could only find 0 - unhealthy instances: a,b"),
          w').
Proof.
  assert (Hwf : slice_wf (world_of two_addrs 100) (whole two_addrs))
    by (apply whole_wf; vm_compute; discriminate).
  assert (Hint : is_int 3) by (apply small_is_int; lia).
  split; [exact Hwf|]. split; [exact Hint|].
  destruct (Filter_error_is_text Op specIsHealthy
              ignoreUnhealthyInstancesReplicationStrategy (whole two_addrs) Write 3 10
              false (world_of two_addrs 100) Hwf Hint)
    as (s' & mf & [msg|] & w' & Hrun & Herr).
  - destruct Herr as (-> & -> & ->). exists w'. exact Hrun.
  - exfalso. apply Herr. reflexivity.
Defined.

(** A stale instance before a healthy one: the caller's slice reads the
    healthy one twice afterwards. *)
Lemma Filter_filters_in_place_witness :
  slice_wf (world_of first_stale 100) (whole first_stale) /\ is_int 1 /\
  exists res w',
    Filter Op specIsHealthy defaultReplicationStrategy (whole first_stale)
      Write 1 10 false (world_of first_stale 100)
    = Ok (res, w')
    /\ elems w' (whole first_stale) = [inst "b" 95; inst "b" 95].
Proof.
  assert (Hwf : slice_wf (world_of first_stale 100) (whole first_stale))
    by (apply whole_wf; vm_compute; discriminate).
  assert (Hint : is_int 1) by (apply small_is_int; lia).
  split; [exact Hwf|]. split; [exact Hint|].
  destruct (Filter_filters_in_place Op specIsHealthy defaultReplicationStrategy
              (whole first_stale) Write 1 10 false (world_of first_stale 100) Hwf Hint)
    as (s' & mf & err & w' & Hrun & Hel & _).
  exists (s', mf, err), w'. split; [exact Hrun|exact Hel].
Defined.


(** ** Where the code departs from the description *)

(** C4, as stated, fails on a failing call: with one healthy instance
    out of three and a replication factor of three, the quorum strategy
    returns no instance, not the healthy one. *)
Lemma Filter_failure_returns_no_instance :
  List.filter (fun x => specIsHealthy x Write 10 100)
    (elems (world_of two_stale 100) (whole two_stale))
  = [inst "a" 95]
  /\ returned (Filter Op specIsHealthy defaultReplicationStrategy (whole two_stale)
                 Write 3 10 false (world_of two_stale 100))
     = Some ([], 0,
             Some "at least 2 live replicas required, could only find 1 - unhealthy instances: b,c").
Proof. split; vm_compute; reflexivity. Qed.

(** C5, as stated, fails: the time is not an argument of [Filter].  Two
    calls with the same instances, operation, replication factor,
    timeout and flag return different results when the clock of the
    store differs, because the call reads the clock itself. *)
Lemma Filter_reads_the_clock_itself :
  elems (world_of one_fresh 100) (whole one_fresh)
  = elems (world_of one_fresh 200) (whole one_fresh)
  /\ returned (Filter Op specIsHealthy defaultReplicationStrategy (whole one_fresh)
                 Write 1 10 false (world_of one_fresh 100))
     = Some (one_fresh, 0, None)
  /\ returned (Filter Op specIsHealthy defaultReplicationStrategy (whole one_fresh)
                 Write 1 10 false (world_of one_fresh 200))
     = Some ([], 0,
             Some "at least 1 live replicas required, could only find 0 - unhealthy instances: a")
  /\ exists res w',
       Filter Op specIsHealthy defaultReplicationStrategy (whole one_fresh)
         Write 1 10 false (world_of one_fresh 100) = Ok (res, w')
       /\ reads (world_of one_fresh 100) = 0%nat /\ reads w' = 1%nat.
Proof.
  split_and!; [reflexivity|vm_compute; reflexivity|vm_compute; reflexivity|].
  eexists _, _. split_and!; [vm_compute; reflexivity|reflexivity|reflexivity].
Qed.

(** C8, as stated, fails: the error has no fields.  Two calls whose
    unhealthy addresses differ return the same error, so the addresses
    cannot be read back from it. *)
Lemma error_text_loses_the_addresses :
  unhealthy_addrs Op specIsHealthy Write 10 100 comma_addr = ["a,b"]
  /\ unhealthy_addrs Op specIsHealthy Write 10 100 two_addrs = ["a"; "b"]
  /\ returned (Filter Op specIsHealthy defaultReplicationStrategy (whole comma_addr)
                 Write 3 10 false (world_of comma_addr 100))
     = Some ([], 0,
             Some "at least 2 live replicas required, could only find 0 - unhealthy instances: a,b")
  /\ returned (Filter Op specIsHealthy defaultReplicationStrategy (whole two_addrs)
                 Write 3 10 false (world_of two_addrs 100))
     = Some ([], 0,
             Some "at least 2 live replicas required, could only find 0 - unhealthy instances: a,b").
Proof. split_and!; vm_compute; reflexivity. Qed.

(** C9, as stated, fails: the caller's slice is overwritten.  With a
    stale instance before a healthy one, the call moves the healthy one
    to the front of the caller's array. *)
Lemma Filter_overwrites_instances :
  exists res w',
    Filter Op specIsHealthy defaultReplicationStrategy (whole first_stale)
      Write 1 10 false (world_of first_stale 100) = Ok (res, w')
    /\ elems (world_of first_stale 100) (whole first_stale)
       = [inst "a" 5; inst "b" 95]
    /\ elems w' (whole first_stale) = [inst "b" 95; inst "b" 95]
    /\ elems w' (whole first_stale)
       <> elems (world_of first_stale 100) (whole first_stale).
Proof.
  eexists _, _. split_and!; [vm_compute; reflexivity|reflexivity|reflexivity|].
  vm_compute. discriminate.
Qed.

(** ** The further properties at work *)

Lemma nil_slice_wf w : slice_wf w nil_slice.
Proof. split_and!; [done| |done]. unfold int_max. simpl. lia. Qed.

(** The nil slice and a negative replication factor. *)
Lemma Filter_empty_input_witness :
  slice_wf (world_of [] 100) nil_slice /\ is_int (-7) /\ len nil_slice = 0%nat /\
  Filter Op specIsHealthy defaultReplicationStrategy nil_slice Write (-7) 10 true
    (world_of [] 100)
  = Ok ((nil_slice, 0,
         Some "at least 1 live replicas required across different availability zones, could only find 0"),
        tick (world_of [] 100)).
Proof.
  assert (Hwf : slice_wf (world_of [] 100) nil_slice) by apply nil_slice_wf.
  assert (Hint : is_int (-7)) by (apply small_is_int; lia).
  split; [exact Hwf|]. split; [exact Hint|]. split; [reflexivity|].
  exact (Filter_empty_input Op specIsHealthy defaultReplicationStrategy nil_slice
           Write (-7) 10 true (world_of [] 100) Hwf Hint eq_refl).
Defined.

Lemma five_healthy_all x :
  x ∈ elems (world_of five_healthy 100) (whole five_healthy) ->
  specIsHealthy x Write 10 100 = true.
Proof.
  change (elems (world_of five_healthy 100) (whole five_healthy)) with five_healthy.
  unfold five_healthy. rewrite !elem_of_cons, elem_of_nil.
  intros [->|[->|[->|[->|[->|[]]]]]]; reflexivity.
Qed.

(** Five healthy candidates: the store is only read. *)
Lemma Filter_all_healthy_witness :
  slice_wf (world_of five_healthy 100) (whole five_healthy) /\ is_int 3 /\
  exists s' maxFailures err,
    Filter Op specIsHealthy defaultReplicationStrategy (whole five_healthy)
      Write 3 10 false (world_of five_healthy 100)
    = Ok ((s', maxFailures, err), tick (world_of five_healthy 100))
    /\ (err = None -> s' = whole five_healthy).
Proof.
  assert (Hwf : slice_wf (world_of five_healthy 100) (whole five_healthy))
    by (apply whole_wf; vm_compute; discriminate).
  assert (Hint : is_int 3) by (apply small_is_int; lia).
  split; [exact Hwf|]. split; [exact Hint|].
  exact (Filter_all_healthy Op specIsHealthy defaultReplicationStrategy
           (whole five_healthy) Write 3 10 false (world_of five_healthy 100)
           Hwf Hint five_healthy_all).
Defined.

Lemma five_healthy_run rf :
  rf = 1 \/ rf = 3 ->
  defaultReplicationStrategy_Filter Op specIsHealthy (whole five_healthy)
    Write rf 10 false (world_of five_healthy 100)
  = Ok ((whole five_healthy, 2, None), tick (world_of five_healthy 100)).
Proof. intros [->| ->]; vm_compute; reflexivity. Qed.

(** Five healthy instances, two may fail: three successes are required,
    more than half of five. *)
Lemma quorum_requires_strict_majority_witness :
  slice_wf (world_of five_healthy 100) (whole five_healthy) /\ is_int 3 /\
  3 < 2 * (Z.of_nat (length (elems (tick (world_of five_healthy 100))
                               (whole five_healthy))) - 2).
Proof.
  assert (Hwf : slice_wf (world_of five_healthy 100) (whole five_healthy))
    by (apply whole_wf; vm_compute; discriminate).
  assert (Hint : is_int 3) by (apply small_is_int; lia).
  split; [exact Hwf|]. split; [exact Hint|].
  exact (proj1 (quorum_requires_strict_majority Op specIsHealthy
                  (whole five_healthy) Write 3 10 false (world_of five_healthy 100)
                  _ _ _ Hwf Hint (five_healthy_run 3 (or_intror eq_refl)))).
Defined.

(** Five healthy candidates for a replication factor of three. *)
Lemma quorum_extended_set_succeeds_witness :
  slice_wf (world_of five_healthy 100) (whole five_healthy) /\ is_int 3 /\
  exists s' w',
    defaultReplicationStrategy_Filter Op specIsHealthy (whole five_healthy)
      Write 3 10 false (world_of five_healthy 100)
    = Ok ((s', 2, None), w')
    /\ elems w' s' = five_healthy.
Proof.
  assert (Hwf : slice_wf (world_of five_healthy 100) (whole five_healthy))
    by (apply whole_wf; vm_compute; discriminate).
  assert (Hint : is_int 3) by (apply small_is_int; lia).
  split; [exact Hwf|]. split; [exact Hint|].
  apply (quorum_extended_set_succeeds Op specIsHealthy (whole five_healthy) Write 3 10
           false (world_of five_healthy 100) Hwf Hint).
  - vm_compute. lia.
  - vm_compute. discriminate.
Defined.

(** Three candidates for a replication factor of three, one of them
    stale: the budget of one is spent on it. *)
Lemma quorum_budget_counts_unhealthy_witness :
  slice_wf (world_of one_stale 100) (whole one_stale) /\ is_int 3 /\
  exists s' maxFailures err w',
    defaultReplicationStrategy_Filter Op specIsHealthy (whole one_stale)
      Write 3 10 false (world_of one_stale 100)
    = Ok ((s', maxFailures, err), w')
    /\ (err = None <-> 1 + (3 / 2 + 1) <= 3)
    /\ (err = None -> maxFailures + 1 = 3 - (3 / 2 + 1)).
Proof.
  assert (Hwf : slice_wf (world_of one_stale 100) (whole one_stale))
    by (apply whole_wf; vm_compute; discriminate).
  assert (Hint : is_int 3) by (apply small_is_int; lia).
  split; [exact Hwf|]. split; [exact Hint|].
  apply (quorum_budget_counts_unhealthy Op specIsHealthy (whole one_stale) Write 3 10
           false (world_of one_stale 100) Hwf Hint).
  vm_compute. discriminate.
Defined.

(** Five healthy instances: the quorum strategy tolerates two failures,
    the best-effort strategy at least as many. *)
Lemma ignoreUnhealthy_succeeds_where_quorum_does_witness :
  slice_wf (world_of five_healthy 100) (whole five_healthy) /\ is_int 3 /\
  exists maxFailures',
    ignoreUnhealthyInstancesReplicationStrategy_Filter Op specIsHealthy
      (whole five_healthy) Write 3 10 false (world_of five_healthy 100)
    = Ok ((whole five_healthy, maxFailures', None), tick (world_of five_healthy 100))
    /\ 2 <= maxFailures'.
Proof.
  assert (Hwf : slice_wf (world_of five_healthy 100) (whole five_healthy))
    by (apply whole_wf; vm_compute; discriminate).
  assert (Hint : is_int 3) by (apply small_is_int; lia).
  split; [exact Hwf|]. split; [exact Hint|].
  exact (ignoreUnhealthy_succeeds_where_quorum_does Op specIsHealthy
           (whole five_healthy) Write 3 10 false (world_of five_healthy 100)
           _ _ _ Hwf Hint (five_healthy_run 3 (or_intror eq_refl))).
Defined.

(** From a replication factor of three down to one. *)
Lemma quorum_monotone_in_replicationFactor_witness :
  slice_wf (world_of five_healthy 100) (whole five_healthy) /\
  is_int 1 /\ is_int 3 /\ 1 <= 3 /\
  exists maxFailures1,
    defaultReplicationStrategy_Filter Op specIsHealthy (whole five_healthy)
      Write 1 10 false (world_of five_healthy 100)
    = Ok ((whole five_healthy, maxFailures1, None), tick (world_of five_healthy 100))
    /\ 2 <= maxFailures1.
Proof.
  assert (Hwf : slice_wf (world_of five_healthy 100) (whole five_healthy))
    by (apply whole_wf; vm_compute; discriminate).
  assert (Hint1 : is_int 1) by (apply small_is_int; lia).
  assert (Hint3 : is_int 3) by (apply small_is_int; lia).
  split; [exact Hwf|]. split; [exact Hint1|]. split; [exact Hint3|]. split; [lia|].
  exact (quorum_monotone_in_replicationFactor Op specIsHealthy
           (whole five_healthy) Write 1 3 10 false (world_of five_healthy 100)
           _ _ _ Hwf Hint1 Hint3 ltac:(lia) (five_healthy_run 3 (or_intror eq_refl))).
Defined.

(** One healthy instance out of three, with and without the flag. *)
Lemma quorum_zone_flag_changes_text_only_witness :
  slice_wf (world_of two_stale 100) (whole two_stale) /\ is_int 3 /\
  exists s' maxFailures err1 err2 w',
    defaultReplicationStrategy_Filter Op specIsHealthy (whole two_stale)
      Write 3 10 true (world_of two_stale 100)
    = Ok ((s', maxFailures, err1), w')
    /\ defaultReplicationStrategy_Filter Op specIsHealthy (whole two_stale)
         Write 3 10 false (world_of two_stale 100)
       = Ok ((s', maxFailures, err2), w')
    /\ (err1 = None <-> err2 = None).
Proof.
  assert (Hwf : slice_wf (world_of two_stale 100) (whole two_stale))
    by (apply whole_wf; vm_compute; discriminate).
  assert (Hint : is_int 3) by (apply small_is_int; lia).
  split; [exact Hwf|]. split; [exact Hint|].
  exact (quorum_zone_flag_changes_text_only Op specIsHealthy (whole two_stale)
           Write 3 10 (world_of two_stale 100) Hwf Hint).
Defined.

Lemma first_stale_run r :
  Filter Op specIsHealthy r (whole first_stale) Write 1 10 false
    (world_of first_stale 100)
  = Ok ((mkSlice (Some 1%positive) 0 1 2, 0, None),
        mkWorld {[ 1%positive := [inst "b" 95; inst "b" 95] ]} (fun _ => 100) 1).
Proof. destruct r; vm_compute; reflexivity. Qed.

(** A stale instance before a healthy one: the slice with the healthy
    one comes back, and comes back again. *)
Lemma Filter_again_on_returned_slice_witness :
  slice_wf (world_of first_stale 100) (whole first_stale) /\ is_int 1 /\
  Filter Op specIsHealthy defaultReplicationStrategy
    (mkSlice (Some 1%positive) 0 1 2) Write 1 10 false
    (mkWorld {[ 1%positive := [inst "b" 95; inst "b" 95] ]} (fun _ => 100) 1)
  = Ok ((mkSlice (Some 1%positive) 0 1 2, 0, None),
        mkWorld {[ 1%positive := [inst "b" 95; inst "b" 95] ]} (fun _ => 100) 2).
Proof.
  assert (Hwf : slice_wf (world_of first_stale 100) (whole first_stale))
    by (apply whole_wf; vm_compute; discriminate).
  assert (Hint : is_int 1) by (apply small_is_int; lia).
  split; [exact Hwf|]. split; [exact Hint|].
  exact (Filter_again_on_returned_slice Op specIsHealthy defaultReplicationStrategy
           (whole first_stale) Write 1 10 false (world_of first_stale 100)
           _ _ _ Hwf Hint (first_stale_run defaultReplicationStrategy)
           (fun _ _ => eq_refl)).
Defined.

(** The same call, repeated on the caller's slice: the healthy instance
    is found twice, and the best-effort strategy now tolerates one
    failure. *)
Lemma Filter_again_on_caller_slice_witness :
  slice_wf (world_of first_stale 100) (whole first_stale) /\ is_int 1 /\
  exists maxFailures2,
    returned (Filter Op specIsHealthy ignoreUnhealthyInstancesReplicationStrategy
                (whole first_stale) Write 1 10 false
                (mkWorld {[ 1%positive := [inst "b" 95; inst "b" 95] ]}
                   (fun _ => 100) 1))
    = Some ([inst "b" 95; inst "b" 95], maxFailures2, None)
    /\ 0 <= maxFailures2.
Proof.
  assert (Hwf : slice_wf (world_of first_stale 100) (whole first_stale))
    by (apply whole_wf; vm_compute; discriminate).
  assert (Hint : is_int 1) by (apply small_is_int; lia).
  split; [exact Hwf|]. split; [exact Hint|].
  exact (Filter_again_on_caller_slice Op specIsHealthy
           ignoreUnhealthyInstancesReplicationStrategy
           (whole first_stale) Write 1 10 false (world_of first_stale 100)
           _ _ _ (inst "b" 95) Hwf Hint
           (first_stale_run ignoreUnhealthyInstancesReplicationStrategy)
           (fun _ _ => eq_refl) eq_refl).
Defined.

(** A ring with a timeout of 10 and a replication factor of 3, asked
    about the instances the quorum strategy returned. *)
Lemma Filter_returns_what_the_ring_calls_healthy_witness :
  slice_wf (world_of five_healthy 100) (whole five_healthy) /\ is_int 3 /\
  forall x,
    x ∈ elems (tick (world_of five_healthy 100)) (whole five_healthy)
    <-> x ∈ elems (world_of five_healthy 100) (whole five_healthy)
        /\ Ring_IsHealthy Op specIsHealthy
             (mkRing (mkConfig 10 3) (mkRWMutex 0 false) (mkDesc ∅)) x Write 100
           = true.
Proof.
  assert (Hwf : slice_wf (world_of five_healthy 100) (whole five_healthy))
    by (apply whole_wf; vm_compute; discriminate).
  assert (Hint : is_int 3) by (apply small_is_int; lia).
  split; [exact Hwf|]. split; [exact Hint|].
  exact (Filter_returns_what_the_ring_calls_healthy Op specIsHealthy
           (mkRing (mkConfig 10 3) (mkRWMutex 0 false) (mkDesc ∅))
           defaultReplicationStrategy (whole five_healthy) Write false
           (world_of five_healthy 100) _ _ _ Hwf Hint
           (five_healthy_run 3 (or_intror eq_refl))).
Defined.
